(** * waveterm: remote probing (pkg/wsl) and the generic RPC call helpers (wshclient)

    A shallow embedding of [pkg/wsl/wsl-util.go] and of the wshclient
    helper file ([sendRpcRequestCallHelper], [rtnErr],
    [sendRpcRequestResponseStreamHelper]), with the properties of the
    design document stated over it.

    Conventions.
    - A Go [error] is represented by its message ([err.Error()]); a nil
      error is [None].
    - [[]byte] output of a command is a [string] (a sequence of bytes).
    - A call that has effects on the outside world threads an explicit
      world state. *)

From Stdlib Require Import String Ascii List Bool Arith ZArith Lia.
Import ListNotations.
Open Scope string_scope.

(** Go's [error] interface, seen through [Error()]. *)
Definition error : Type := string.

(** ** The pieces of Go's [strings] and [fmt] packages that the code calls.

    [strings.Split] on a one-byte separator, [strings.Contains] and the
    [%s] verb work on bytes and are defined here. [strings.TrimSpace]
    and [strings.ToLower] follow the Unicode tables of the Go library;
    the functions of [pkg/wsl] take them as parameters. What is defined
    here for these two is their behaviour on strings of ASCII bytes,
    where Go trims the six ASCII blanks and lower-cases [A..Z]; it
    serves to run the probes on ASCII outputs and to say of a parameter
    that it does on ASCII strings what the Go function does. *)
Module GoStrings.

Definition is_space (c : ascii) : bool :=
  let n := nat_of_ascii c in
  ((n =? 9) || (n =? 10) || (n =? 11) || (n =? 12) || (n =? 13) || (n =? 32))%nat.

Definition lower_byte (c : ascii) : ascii :=
  let n := nat_of_ascii c in
  if ((65 <=? n) && (n <=? 90))%nat then ascii_of_nat (n + 32) else c.

(** [strings.ToLower] on a string of ASCII bytes. *)
Fixpoint asciiToLower (s : string) : string :=
  match s with
  | EmptyString => EmptyString
  | String c r => String (lower_byte c) (asciiToLower r)
  end.

Fixpoint asciiTrimLeft (s : string) : string :=
  match s with
  | EmptyString => EmptyString
  | String c r => if is_space c then asciiTrimLeft r else s
  end.

Fixpoint asciiTrimRight (s : string) : string :=
  match s with
  | EmptyString => EmptyString
  | String c r =>
      match asciiTrimRight r with
      | EmptyString => if is_space c then EmptyString else String c EmptyString
      | r' => String c r'
      end
  end.

(** [strings.TrimSpace] on a string of ASCII bytes. *)
Definition asciiTrimSpace (s : string) : string :=
  asciiTrimRight (asciiTrimLeft s).

(** Every byte of [s] is below 128. *)
Fixpoint is_ascii (s : string) : bool :=
  match s with
  | EmptyString => true
  | String c r => (nat_of_ascii c <? 128)%nat && is_ascii r
  end.

(** [f] does on strings of ASCII bytes what [g] does. *)
Definition agree_on_ascii (f g : string -> string) : Prop :=
  forall s, is_ascii s = true -> f s = g s.

(** [strings.Split(s, sep)] for a one-byte separator. *)
Fixpoint Split (s : string) (sep : ascii) : list string :=
  match s with
  | EmptyString => [EmptyString]
  | String c r =>
      if Ascii.eqb c sep then EmptyString :: Split r sep
      else match Split r sep with
           | [] => [String c EmptyString]
           | h :: t => String c h :: t
           end
  end.

(** [strings.Contains] *)
Fixpoint Contains (s substr : string) : bool :=
  String.prefix substr s ||
  match s with
  | EmptyString => false
  | String _ r => Contains r substr
  end.

(** Indexing a slice: [l[i]] panics out of range. *)
Definition index {A : Type} (l : list A) (i : nat) : option A := nth_error l i.

(** The [%s] verb of [fmt] applied to an [error] value. *)
Definition fmt_s (e : option error) : string :=
  match e with
  | Some msg => msg
  | None => "%!s(<nil>)"
  end.

End GoStrings.

Import GoStrings.

(** ** pkg/wsl: probing a distro through the command execution port *)
Module Wsl.

(** A tiny state monad: every probe threads the state of the remote
    world, which decides what each command prints and whether it fails. *)
Definition M (W A : Type) : Type := W -> A * W.

Definition ret {W A : Type} (a : A) : M W A := fun w => (a, w).

Definition bind {W A B : Type} (m : M W A) (k : A -> M W B) : M W B :=
  fun w => let (a, w') := m w in k a w'.

Notation "x <- m ;; k" := (bind m (fun x => k))
  (at level 61, m at next level, right associativity).
Notation "' pat <- m ;; k" := (bind m (fun x => match x with pat => k end))
  (at level 61, pat pattern, m at next level, right associativity).

(** Go's [err == nil]. *)
Definition is_nil (e : option error) : bool :=
  match e with None => true | Some _ => false end.

(** Where [GetWshPath] returned from. *)
Inductive wsh_source : Type :=
| ViaWhich
| ViaWhere
| ViaCmdProbe
| ViaDefault.

Definition defaultPath : string := "~/.waveterm/bin/wsh".

Definition wshCmdProbe : string :=
  "(dir 2>&1 *``|echo %userprofile%\.waveterm%\.waveterm\bin\wsh.exe);&<# rem #>echo none".

Section Probe.

(** [strings.TrimSpace] and [strings.ToLower] of the Go library. *)
Variable TrimSpace : string -> string.
Variable ToLower : string -> string.

(** The state of the distro and of everything behind it. *)
Variable W : Type.

(** [client.WslCommand(ctx, c).Output()]: the captured output and the
    error, both of which Go returns. *)
Variable Output : string -> M W (string * option error).

(** [strings.TrimSpace(string(out)) != lit] *)
Definition trimmed_differs (out lit : string) : bool :=
  negb (String.eqb (TrimSpace out) lit).

(** [GetWshPath], with the return statement that produced the path. *)
Definition GetWshPath_src : M W (wsh_source * string) :=
  '(out, whichErr) <- Output "which wsh" ;;
  if is_nil whichErr then ret (ViaWhich, TrimSpace out) else
  '(out, whereErr) <- Output "where.exe wsh" ;;
  if is_nil whereErr then ret (ViaWhere, TrimSpace out) else
  '(out, cmdErr) <- Output wshCmdProbe ;;
  if is_nil cmdErr && trimmed_differs out "none"
  then ret (ViaCmdProbe, TrimSpace out)
  else ret (ViaDefault, defaultPath).

Definition GetWshPath : M W string :=
  '(_, path) <- GetWshPath_src ;; ret path.

Definition hasBashInstalled : M W (bool * option error) :=
  '(out, whichErr) <- Output "which bash" ;;
  if is_nil whichErr && negb (String.length out =? 0)%nat then ret (true, None) else
  '(out, whereErr) <- Output "where.exe bash" ;;
  if is_nil whereErr && negb (String.length out =? 0)%nat then ret (true, None) else
  ret (false, None).

(** [strings.Split(formatted, "_")[0]]; [None] is the index panic. *)
Definition first_segment (formatted : string) : option string :=
  index (Split formatted "_"%char) 0.

Definition osErrorf (unixErr cmdErr psErr : option error) : error :=
  "unable to determine os: {unix: " ++ fmt_s unixErr ++
  ", cmd: " ++ fmt_s cmdErr ++
  ", powershell: " ++ fmt_s psErr ++ "}".

(** [GetClientOs]; the outer [option] is [None] when the code panics. *)
Definition GetClientOs : M W (option (string * option error)) :=
  '(out, unixErr) <- Output "uname -s" ;;
  if is_nil unixErr then
    let formatted := ToLower out in
    let formatted := TrimSpace formatted in
    ret (Some (formatted, None))
  else
  '(out, cmdErr) <- Output "echo %OS%" ;;
  if is_nil cmdErr && trimmed_differs out "%OS%" then
    let formatted := ToLower out in
    let formatted := TrimSpace formatted in
    ret (option_map (fun seg => (seg, None)) (first_segment formatted))
  else
  '(out, psErr) <- Output "echo $env:OS" ;;
  if is_nil psErr && trimmed_differs out "$env:OS" then
    let formatted := ToLower out in
    let formatted := TrimSpace formatted in
    ret (option_map (fun seg => (seg, None)) (first_segment formatted))
  else
  ret (Some (EmptyString, Some (osErrorf unixErr cmdErr psErr))).

Definition archErrorf (unixErr cmdErr psErr : option error) : error :=
  "unable to determine architecture: {unix: " ++ fmt_s unixErr ++
  ", cmd: " ++ fmt_s cmdErr ++
  ", powershell: " ++ fmt_s psErr ++ "}".

Definition GetClientArch : M W (string * option error) :=
  '(out, unixErr) <- Output "uname -m" ;;
  if is_nil unixErr then
    let formatted := ToLower out in
    let formatted := TrimSpace formatted in
    if String.eqb formatted "x86_64" then ret ("x64", None)
    else ret (formatted, None)
  else
  '(out, cmdErr) <- Output "echo %PROCESSOR_ARCHITECTURE%" ;;
  if is_nil cmdErr && trimmed_differs out "%PROCESSOR_ARCHITECTURE%" then
    let formatted := ToLower out in
    ret (TrimSpace formatted, None)
  else
  '(out, psErr) <- Output "echo $env:PROCESSOR_ARCHITECTURE" ;;
  if is_nil psErr && trimmed_differs out "$env:PROCESSOR_ARCHITECTURE" then
    let formatted := ToLower out in
    ret (TrimSpace formatted, None)
  else
  ret (EmptyString, Some (archErrorf unixErr cmdErr psErr)).

End Probe.

(** *** The installer *)

Definition installTemplateRawBash : string :=
"bash -c ' \
mkdir -p {{.installDir}}; \
cat > {{.tempPath}}; \
mv {{.tempPath}} {{.installPath}}; \
chmod a+x {{.installPath}};' \
".

Definition installTemplateRawDefault : string :=
" \
mkdir -p {{.installDir}}; \
cat > {{.tempPath}}; \
mv {{.tempPath}} {{.installPath}}; \
chmod a+x {{.installPath}}; \
".

(** The return statements of [CpHostToRemote], in source order. *)
Inductive cp_return : Type :=
| RetBashProbeErr (err : error)
| RetStdinPipeErr (err : error)
| RetStartErr (err : error)
| RetOpenErr (sourcePath : string) (err : error)
| RetNil.

(** The [error] each return statement hands to the caller. *)
Definition cp_error (r : cp_return) : option error :=
  match r with
  | RetBashProbeErr err => Some err
  | RetStdinPipeErr err => Some err
  | RetStartErr err => Some err
  | RetOpenErr sourcePath err =>
      Some ("cannot open local file " ++ sourcePath ++ " to send to host: " ++ err)
  | RetNil => None
  end.

(** What happened after the byte copy began: the results of [io.Copy],
    of [process.Kill()] and of [cmd.Wait()]. *)
Record after_copy : Type := {
  copyErr : option error;
  killErr : option error;
  waitErr : option error
}.

Section Installer.

Variable W : Type.
Variable Output : string -> M W (string * option error).

(** [filepath.Dir] and [filepath.ToSlash] of the controller's OS. *)
Variable Dir : string -> string.
Variable ToSlash : string -> string.

(** [template.Must] over [Parse(raw)] followed by [Execute]
    into a buffer, with the words of the map. *)
Variable Execute : string -> list (string * string) -> string.

(** The process handle of a command: [StdinPipe], [Start], and the
    joint run of the copying goroutine ([io.Copy], then [Kill]) and of
    [Wait], which the code runs side by side. *)
Variable StdinPipe : string -> M W (option error).
Variable Start : string -> M W (option error).
Variable CopyKillWait : string -> string -> M W after_copy.

(** [os.Open] on the controller. *)
Variable Open : string -> M W (option error).

Definition installWords (destPath : string) : list (string * string) :=
  [ ("installDir", ToSlash (Dir destPath));
    ("tempPath", destPath ++ ".temp");
    ("installPath", destPath) ].

Definition CpHostToRemote_ret (sourcePath destPath : string) : M W cp_return :=
  '(bashInstalled, err) <- hasBashInstalled W Output ;;
  match err with
  | Some e => ret (RetBashProbeErr e)
  | None =>
      let selectedTemplateRaw :=
        if bashInstalled : bool then installTemplateRawBash
        else installTemplateRawDefault in
      let installCmd := Execute selectedTemplateRaw (installWords destPath) in
      err <- StdinPipe installCmd ;;
      match err with
      | Some e => ret (RetStdinPipeErr e)
      | None =>
          err <- Start installCmd ;;
          match err with
          | Some e => ret (RetStartErr e)
          | None =>
              err <- Open sourcePath ;;
              match err with
              | Some e => ret (RetOpenErr sourcePath e)
              | None =>
                  _ <- CopyKillWait installCmd sourcePath ;;
                  ret RetNil
              end
          end
      end
  end.

Definition CpHostToRemote (sourcePath destPath : string) : M W (option error) :=
  r <- CpHostToRemote_ret sourcePath destPath ;; ret (cp_error r).

End Installer.

(** *** Probes that go through the helper binary, and the home directory *)

(** The double quote of the command [echo "$HOME"]. *)
Definition dquote : string := String (ascii_of_nat 34) EmptyString.

Definition echoHome : string := "echo " ++ dquote ++ "$HOME" ++ dquote.

Section Shell.

Variable TrimSpace : string -> string.
Variable W : Type.
Variable Output : string -> M W (string * option error).

Definition DetectShell : M W (string * option error) :=
  wshPath <- GetWshPath TrimSpace W Output ;;
  '(out, err) <- Output (wshPath ++ " shell") ;;
  match err with
  | Some _ => ret ("/bin/bash", None)
  | None => ret (TrimSpace out, None)
  end.

Definition GetWshVersion : M W (string * option error) :=
  wshPath <- GetWshPath TrimSpace W Output ;;
  '(out, err) <- Output (wshPath ++ " version") ;;
  match err with
  | Some e => ret (EmptyString, Some e)
  | None => ret (TrimSpace out, None)
  end.

Definition InstallClientRcFiles : M W (option error) :=
  path <- GetWshPath TrimSpace W Output ;;
  '(_, err) <- Output (path ++ " rcfiles") ;;
  ret err.

Definition GetHomeDir : M W string :=
  '(out, err) <- Output echoHome ;;
  if is_nil err then ret (TrimSpace out) else
  '(out, err) <- Output "echo %userprofile%" ;;
  if is_nil err then ret (TrimSpace out) else
  ret "~".

End Shell.

(** *** A port that keeps a record of what was asked of it *)

(** What the code asks of the command execution port and of the local
    file system. *)
Inductive action : Type :=
| ActOutput (command : string)
| ActStdinPipe (command : string)
| ActStart (command : string)
| ActOpen (path : string)
| ActCopyKillWait (command path : string).

(** The operation [op], with [a] added to the record. *)
Definition recorded {W A : Type} (a : action) (op : M W A)
  : M (W * list action) A :=
  fun st => let (r, w') := op (fst st) in (r, (w', (snd st ++ [a])%list)).

Definition recOutput {W : Type} (Output : string -> M W (string * option error))
  : string -> M (W * list action) (string * option error) :=
  fun c => recorded (ActOutput c) (Output c).

(** [IsPowershell], on a base name computed by [filepath.Base]. *)
Definition IsPowershell (Base : string -> string) (shellPath : string) : bool :=
  let shellBase := Base shellPath in
  Contains shellBase "powershell" || Contains shellBase "pwsh".

End Wsl.

(** ** wshclient: the generic call and stream helpers *)
Module WshClient.

Import Wsl.

(** Modelled from the spec: the declaration of [wshrpc.RpcOpts] is not
    part of the sources at hand; the options the design names are
    [Timeout] and [NoResponse]. *)
Record RpcOpts : Type := {
  Timeout : Z;
  NoResponse : bool
}.

(** [&wshrpc.RpcOpts{}] *)
Definition emptyOpts : RpcOpts := {| Timeout := 0%Z; NoResponse := false |}.

(** Modelled from the spec: the declaration of [wshrpc.RespOrErrorUnion]
    is not part of the sources at hand; the code builds it with the two
    fields [Response] and [Error]. *)
Record RespOrErrorUnion (T : Type) : Type := {
  Response : T;
  Error : option error
}.
Arguments Response {T} _.
Arguments Error {T} _.

(** What a function call comes to: it returns, or the goroutine panics. *)
Inductive outcome (A : Type) : Type :=
| Returns (a : A)
| Panics.
Arguments Returns {A} a.
Arguments Panics {A}.

(** The calls made on the transport and on the decoder. *)
Inductive call : Type :=
| CallSendCommand (command : string)
| CallSendRpcRequest (command : string)
| CallSendComplexRequest (command : string)
| CallReUnmarshal.

(** Operations on the channel handed back by the stream helper. *)
Inductive chan_op (V : Type) : Type :=
| ChSend (v : V)
| ChClose.
Arguments ChSend {V} v.
Arguments ChClose {V}.

(** A goroutine as seen from its channel: what it did to the channel so
    far, and whether its function has returned. *)
Record goroutine (V : Type) : Type := {
  ops : list (chan_op V);
  returned : bool
}.
Arguments ops {V} _.
Arguments returned {V} _.

(** An unbuffered channel with a consumer that keeps receiving: the
    values received so far, in order, and whether it has been closed.
    Sending on a closed channel and closing it twice panic. *)
Record chan_state (V : Type) : Type := {
  received : list V;
  closed : bool
}.
Arguments received {V} _.
Arguments closed {V} _.

Definition make_chan {V : Type} : chan_state V :=
  {| received := []; closed := false |}.

Definition chan_step {V : Type} (st : chan_state V) (op : chan_op V)
  : option (chan_state V) :=
  if closed st then None
  else match op with
       | ChSend v => Some {| received := (received st ++ [v])%list; closed := false |}
       | ChClose => Some {| received := received st; closed := true |}
       end.

Fixpoint chan_run {V : Type} (st : chan_state V) (l : list (chan_op V))
  : option (chan_state V) :=
  match l with
  | [] => Some st
  | op :: l' =>
      match chan_step st op with
      | Some st' => chan_run st' l'
      | None => None
      end
  end.

Definition is_close {V : Type} (op : chan_op V) : bool :=
  match op with ChClose => true | ChSend _ => false end.

(** How many times the channel was closed. *)
Definition closes {V : Type} (l : list (chan_op V)) : nat :=
  List.length (filter is_close l).

(** The values sent, in order. *)
Fixpoint sent {V : Type} (l : list (chan_op V)) : list V :=
  match l with
  | [] => []
  | ChSend v :: l' => v :: sent l'
  | ChClose :: l' => sent l'
  end.

Definition nilRpcError : error := "nil wshrpc passed to wshclient".

Section Helpers.

(** The type parameter and its zero value ([var respData T]). *)
Variable T : Type.
Variable zero : T.

(** [interface{}] payloads and response envelopes. *)
Variable Data : Type.
Variable Envelope : Type.

(** A non-nil [*wshutil.WshRpc], the state of the transport behind it,
    and a [*RpcRequestHandler]. *)
Variable WshRpc : Type.
Variable R : Type.
Variable Handler : Type.

Variable SendCommand :
  WshRpc -> string -> Data -> RpcOpts -> M R (option error).
Variable SendRpcRequest :
  WshRpc -> string -> Data -> RpcOpts -> M R (Envelope * option error).
Variable SendComplexRequest :
  WshRpc -> string -> Data -> RpcOpts -> M R (Handler * option error).
Variable ResponseDone : M Handler bool.
Variable NextResponse : M Handler (Envelope * option error).

(** [utilfn.ReUnmarshal(&respData, resp)]: the value left in [respData]
    and the error. *)
Variable ReUnmarshal : T -> Envelope -> T * option error.

(** A transport operation, recorded in the log of calls. *)
Definition logged {A : Type} (c : call) (op : M R A) : M (R * list call) A :=
  fun st => let (a, r') := op (fst st) in (a, (r', (snd st ++ [c])%list)).

Definition sendRpcRequestCallHelper
    (w : option WshRpc) (command : string) (data : Data) (opts : option RpcOpts)
  : M (R * list call) (outcome (T * option error)) :=
  let opts := match opts with None => Some emptyOpts | Some _ => opts end in
  let respData := zero in
  match w with
  | None => ret (Returns (respData, Some nilRpcError))
  | Some w =>
      match opts with
      | None => ret Panics
      | Some o =>
          if NoResponse o then
            err <- logged (CallSendCommand command) (SendCommand w command data o) ;;
            match err with
            | Some e => ret (Returns (respData, Some e))
            | None => ret (Returns (respData, None))
            end
          else
            '(resp, err) <- logged (CallSendRpcRequest command)
                                   (SendRpcRequest w command data o) ;;
            match err with
            | Some e => ret (Returns (respData, Some e))
            | None =>
                '(respData, err) <- logged CallReUnmarshal
                                           (ret (ReUnmarshal respData resp)) ;;
                match err with
                | Some e => ret (Returns (respData, Some e))
                | None => ret (Returns (respData, None))
                end
            end
      end
  end.

Definition errValue (err : error) : RespOrErrorUnion T :=
  {| Response := zero; Error := Some err |}.

Definition respValue (respData : T) : RespOrErrorUnion T :=
  {| Response := respData; Error := None |}.

(** [rtnErr]: the goroutine sends one value and closes the channel. *)
Definition rtnErr (err : error) : goroutine (RespOrErrorUnion T) :=
  {| ops := [ChSend (errValue err); ChClose]; returned := true |}.

(** The goroutine of the stream helper, run for at most [fuel] turns of
    its loop; the deferred [close] runs when the function returns. *)
Fixpoint streamLoop (fuel : nat) (reqHandler : Handler)
  : goroutine (RespOrErrorUnion T) :=
  match fuel with
  | O => {| ops := []; returned := false |}
  | S fuel' =>
      let (done, h1) := ResponseDone reqHandler in
      if done : bool then {| ops := [ChClose]; returned := true |}
      else
        let '((resp, err), h2) := NextResponse h1 in
        match err with
        | Some e => {| ops := [ChSend (errValue e); ChClose]; returned := true |}
        | None =>
            let respData := zero in
            let (respData, err) := ReUnmarshal respData resp in
            match err with
            | Some e =>
                {| ops := [ChSend (errValue e); ChClose]; returned := true |}
            | None =>
                let g := streamLoop fuel' h2 in
                {| ops := ChSend (respValue respData) :: ops g;
                   returned := returned g |}
            end
        end
  end.

(** The stream helper: the caller's thread sends the request; the
    result is the goroutine that feeds the returned channel. *)
Definition sendRpcRequestResponseStreamHelper (fuel : nat)
    (w : option WshRpc) (command : string) (data : Data) (opts : option RpcOpts)
  : M (R * list call) (outcome (goroutine (RespOrErrorUnion T))) :=
  let opts := match opts with None => Some emptyOpts | Some _ => opts end in
  match w with
  | None => ret (Returns (rtnErr nilRpcError))
  | Some w =>
      match opts with
      | None => ret Panics
      | Some o =>
          '(reqHandler, err) <- logged (CallSendComplexRequest command)
                                       (SendComplexRequest w command data o) ;;
          match err with
          | Some e => ret (Returns (rtnErr e))
          | None => ret (Returns (streamLoop fuel reqHandler))
          end
      end
  end.

End Helpers.

End WshClient.

(** ** Vocabulary for the behaviour of a stream *)
Module StreamProps.

Import Wsl WshClient.

(** The options in force once a nil [opts] has been replaced. *)
Definition effective (opts : option RpcOpts) : RpcOpts :=
  match opts with
  | None => emptyOpts
  | Some o => o
  end.

(** The channel is never closed twice and nothing is sent on it once it
    is closed. *)
Definition closed_at_most_once {V : Type} (l : list (chan_op V)) : Prop :=
  closes l <= 1 /\ chan_run make_chan l <> None.

(** The channel is closed once, as the last thing done to it. *)
Definition closed_once_at_end {V : Type} (l : list (chan_op V)) : Prop :=
  closes l = 1 /\ exists l', l = (l' ++ [ChClose])%list /\ closes l' = 0.

(** No value follows a value whose error is set. *)
Definition silent_after_error {T : Type} (l : list (chan_op (RespOrErrorUnion T)))
  : Prop :=
  forall l1 v l2,
    l = (l1 ++ ChSend v :: l2)%list -> Error v <> None -> sent l2 = [].

(** What the consumer has received, if the channel did not panic. *)
Definition received_of {V : Type} (st : option (chan_state V)) : list V :=
  match st with
  | Some s => received s
  | None => []
  end.

Section Exchange.

Variable T : Type.
Variable zero : T.
Variable Envelope : Type.
Variable Handler : Type.
Variable ResponseDone : M Handler bool.
Variable NextResponse : M Handler (Envelope * option error).
Variable ReUnmarshal : T -> Envelope -> T * option error.

(** The exchange comes to an end after finitely many responses: the
    handler reports done, or a response fails to arrive or to decode. *)
Inductive ends : Handler -> Prop :=
| ends_done h h1 :
    ResponseDone h = (true, h1) -> ends h
| ends_transport_error h h1 resp e h2 :
    ResponseDone h = (false, h1) ->
    NextResponse h1 = ((resp, Some e), h2) -> ends h
| ends_decode_error h h1 resp h2 d e :
    ResponseDone h = (false, h1) ->
    NextResponse h1 = ((resp, None), h2) ->
    ReUnmarshal zero resp = (d, Some e) -> ends h
| ends_later h h1 resp h2 d :
    ResponseDone h = (false, h1) ->
    NextResponse h1 = ((resp, None), h2) ->
    ReUnmarshal zero resp = (d, None) ->
    ends h2 -> ends h.

(** The handler hands out exactly these envelopes, without error, and
    then reports done. *)
Inductive yields : Handler -> list Envelope -> Prop :=
| yields_done h h1 :
    ResponseDone h = (true, h1) -> yields h []
| yields_next h h1 resp h2 rest :
    ResponseDone h = (false, h1) ->
    NextResponse h1 = ((resp, None), h2) ->
    yields h2 rest -> yields h (resp :: rest).

(** Every envelope decodes, to these values. *)
Definition decode_to (envs : list Envelope) (vals : list T) : Prop :=
  Forall2 (fun resp d => ReUnmarshal zero resp = (d, None)) envs vals.

(** A delivered value carries a decoded response and no error. *)
Definition carries_response (v : RespOrErrorUnion T) : Prop :=
  Error v = None /\ exists resp, ReUnmarshal zero resp = (Response v, None).

(** A delivered value carries an error and the zero response. *)
Definition carries_error (v : RespOrErrorUnion T) : Prop :=
  Error v <> None /\ Response v = zero.

(** The sends of a run of decoded responses. *)
Definition responses (vals : list T) : list (chan_op (RespOrErrorUnion T)) :=
  map (fun d => ChSend (respValue T d)) vals.

(** How the goroutine of a stream can stop: still running, done, or
    stopped by an error. *)
Inductive tail_of : list (chan_op (RespOrErrorUnion T)) -> bool -> Prop :=
| tail_running : tail_of [] false
| tail_done : tail_of [ChClose] true
| tail_error e : tail_of [ChSend (errValue T zero e); ChClose] true.

End Exchange.

End StreamProps.

(** ** Concrete distros and transports used to exercise the model *)
Module Scenarios.

Import Wsl WshClient.

Definition LF : string := String (ascii_of_nat 10) EmptyString.
Definition CRLF : string := String (ascii_of_nat 13) LF.

Definition exit127 : option error := Some "exit status 127".

(** A distro described by a table of commands and their outputs; any
    other command fails. The world has no state of its own. *)
Fixpoint tableOutput (tbl : list (string * (string * option error)))
    (c : string) : M unit (string * option error) :=
  match tbl with
  | [] => ret (EmptyString, exit127)
  | (c', r) :: tbl' => if String.eqb c c' then ret r else tableOutput tbl' c
  end.

(** [uname] is missing, [cmd] leaves [%OS%] alone, PowerShell answers. *)
Definition powershellDistro : string -> M unit (string * option error) :=
  tableOutput
    [ ("echo %OS%", ("%OS%" ++ CRLF, None));
      ("echo $env:OS", ("Windows_NT" ++ CRLF, None));
      ("echo %PROCESSOR_ARCHITECTURE%", ("%PROCESSOR_ARCHITECTURE%" ++ CRLF, None));
      ("echo $env:PROCESSOR_ARCHITECTURE", ("AMD64" ++ CRLF, None)) ].

(** A [cmd.exe] machine. *)
Definition cmdDistro : string -> M unit (string * option error) :=
  tableOutput
    [ ("echo %OS%", ("Windows_NT" ++ CRLF, None));
      ("echo %PROCESSOR_ARCHITECTURE%", ("AMD64" ++ CRLF, None)) ].

(** A Cygwin shell: [uname -s] works and prints an underscore. *)
Definition cygwinDistro : string -> M unit (string * option error) :=
  tableOutput
    [ ("uname -s", ("CYGWIN_NT-10.0" ++ LF, None));
      ("uname -m", ("x86_64" ++ LF, None));
      ("which bash", ("/usr/bin/bash" ++ LF, None)) ].

Definition armDistro : string -> M unit (string * option error) :=
  tableOutput
    [ ("uname -s", ("Linux" ++ LF, None));
      ("uname -m", ("arm64" ++ LF, None));
      ("which wsh", ("/usr/local/bin/wsh" ++ LF, None)) ].

(** Nothing works. *)
Definition deadDistro : string -> M unit (string * option error) :=
  tableOutput [].

(** The [cmd] directory probe answers with its sentinel. *)
Definition sentinelDistro : string -> M unit (string * option error) :=
  tableOutput [ (wshCmdProbe, ("none" ++ CRLF, None)) ].

(** [which bash] succeeds but prints nothing; [where.exe] finds it. *)
Definition whereBashDistro : string -> M unit (string * option error) :=
  tableOutput
    [ ("which bash", (EmptyString, None));
      ("where.exe bash", ("C:\bin\bash.exe" ++ CRLF, None)) ].

(** A stand-in for the template engine: the raw text followed by the
    values of the words. *)
Definition plainExecute (raw : string) (words : list (string * string)) : string :=
  fold_left (fun acc kv => acc ++ " " ++ snd kv) words raw.

(** A remote process that takes the pipe and starts, then breaks the
    copy half way and is reported killed by [Wait]. *)
Definition brokenCopy : after_copy :=
  {| copyErr := Some "write |1: broken pipe";
     killErr := None;
     waitErr := Some "signal: killed" |}.

(** A transport whose exchange is scripted: the handler holds the
    responses still to come; an envelope is a number, or [None] when it
    does not fit the target type. *)
Definition scriptDone : M (list (option nat)) bool :=
  fun h => (match h with [] => true | _ => false end, h).

Definition scriptNext : M (list (option nat)) (option nat * option error) :=
  fun h =>
    match h with
    | [] => ((None, Some "EOF"), [])
    | e :: h' => ((e, None), h')
    end.

Definition natUnmarshal (respData : nat) (resp : option nat) : nat * option error :=
  match resp with
  | Some n => (n, None)
  | None => (respData, Some "json: cannot unmarshal string into Go value of type int")
  end.

(** A transport that answers every request with the given script. *)
Definition scriptRequest (script : list (option nat))
    (w : unit) (command : string) (data : unit) (o : RpcOpts)
  : M unit (list (option nat) * option error) :=
  ret (script, None).

(** A transport that refuses every request. *)
Definition refuseRequest
    (w : unit) (command : string) (data : unit) (o : RpcOpts)
  : M unit (list (option nat) * option error) :=
  ret ([], Some "rpc client closed").

(** An exchange that never ends: the handler counts the responses it
    has handed out and is never done. *)
Definition endlessDone : M nat bool := fun h => (false, h).

Definition endlessNext : M nat (option nat * option error) :=
  fun h => ((Some h, None), S h).

Definition endlessRequest
    (w : unit) (command : string) (data : unit) (o : RpcOpts)
  : M unit (nat * option error) :=
  ret (0, None).

Definition okCommand (w : unit) (command : string) (data : unit) (o : RpcOpts)
  : M unit (option error) := ret None.

Definition okRequest (w : unit) (command : string) (data : unit) (o : RpcOpts)
  : M unit (option nat * option error) := ret (Some 42, None).

End Scenarios.

(** ** Properties of the string helpers *)

(** The prefix of [s] before the first [sep], all of [s] when there is
    none: the design's truncation at the first underscore. *)
Fixpoint truncate_at (sep : ascii) (s : string) : string :=
  match s with
  | EmptyString => EmptyString
  | String c r =>
      if Ascii.eqb c sep then EmptyString else String c (truncate_at sep r)
  end.

(** ** Shapes of strings *)

(** Every byte of [s] satisfies [P]. *)
Fixpoint all_bytes (P : ascii -> bool) (s : string) : bool :=
  match s with
  | EmptyString => true
  | String c r => P c && all_bytes P r
  end.

(** No byte of [s] is [sep]. *)
Definition no_byte (sep : ascii) (s : string) : bool :=
  all_bytes (fun c => negb (Ascii.eqb c sep)) s.

(** A command result is passed over by a probe that rejects [lit]. *)
Definition rejected (TrimSpace : string -> string) (lit : string)
    (r : string * option error) : Prop :=
  snd r <> None \/ TrimSpace (fst r) = lit.

(** ** Streams that end on an error *)
Module StreamFailures.

Import Wsl WshClient.

Section Failing.

Variable T : Type.
Variable zero : T.
Variable Envelope : Type.
Variable Handler : Type.
Variable ResponseDone : M Handler bool.
Variable NextResponse : M Handler (Envelope * option error).
Variable ReUnmarshal : T -> Envelope -> T * option error.

(** The handler hands out these envelopes and then, not being done,
    fails with [e]: the next response does not arrive, or arrives and
    does not decode. *)
Inductive yields_then_fails : Handler -> list Envelope -> error -> Prop :=
| fails_in_transport h h1 resp e h2 :
    ResponseDone h = (false, h1) ->
    NextResponse h1 = ((resp, Some e), h2) ->
    yields_then_fails h [] e
| fails_in_decoding h h1 resp h2 d e :
    ResponseDone h = (false, h1) ->
    NextResponse h1 = ((resp, None), h2) ->
    ReUnmarshal zero resp = (d, Some e) ->
    yields_then_fails h [] e
| fails_later h h1 resp h2 rest e :
    ResponseDone h = (false, h1) ->
    NextResponse h1 = ((resp, None), h2) ->
    yields_then_fails h2 rest e ->
    yields_then_fails h (resp :: rest) e.

End Failing.

End StreamFailures.

(** ** More sample ports *)
Module Samples.

Import Wsl WshClient Scenarios.

(** A distro with the helper installed in a place of its own. *)
Definition wshDistro : string -> M unit (string * option error) :=
  tableOutput
    [ ("which wsh", ("/opt/wave/wsh" ++ LF, None));
      ("/opt/wave/wsh shell", ("/usr/bin/zsh" ++ LF, None));
      ("/opt/wave/wsh version", ("wsh v0.8.0" ++ LF, None));
      ("uname -s", ("Linux" ++ LF, None)) ].

(** [which wsh] finds the helper at the very place of the default. *)
Definition defaultPlaceDistro : string -> M unit (string * option error) :=
  tableOutput [ ("which wsh", ("~/.waveterm/bin/wsh" ++ LF, None)) ].

(** A decoder that leaves a half-filled value behind when it fails. *)
Definition partialUnmarshal (respData : nat) (resp : option nat) : nat * option error :=
  match resp with
  | Some n => (n, None)
  | None => (7, Some "json: cannot unmarshal string into Go value of type int")
  end.

Definition badRequest (w : unit) (command : string) (data : unit) (o : RpcOpts)
  : M unit (option nat * option error) := ret (None, None).

Definition failRequest (w : unit) (command : string) (data : unit) (o : RpcOpts)
  : M unit (option nat * option error) := ret (Some 9, Some "timeout").

(** A script whose handler fails once the script is used up, without
    ever being done. *)
Definition neverDone : M (list (option nat)) bool := fun h => (false, h).

End Samples.

(** A command succeeded and printed something. *)
Definition found (r : string * option error) : Prop :=
  snd r = None /\ fst r <> EmptyString.

(** A command failed. *)
Definition failed (r : string * option error) : Prop :=
  snd r <> None.

Lemma Split_head (s : string) (sep : ascii) :
  exists t, Split s sep = truncate_at sep s :: t.
Proof.
  induction s as [|c r IH]; simpl.
  - now exists [].
  - destruct (Ascii.eqb c sep).
    + now exists (Split r sep).
    + destruct IH as [t ->]. now exists t.
Qed.

Lemma first_segment_truncate (s : string) :
  Wsl.first_segment s = Some (truncate_at "_"%char s).
Proof.
  unfold Wsl.first_segment, index.
  destruct (Split_head s "_"%char) as [t ->]. reflexivity.
Qed.

Lemma is_nil_true (e : option error) : Wsl.is_nil e = true <-> e = None.
Proof. destruct e; simpl; split; congruence. Qed.

Lemma trimmed_differs_true (TrimSpace : string -> string) (out lit : string) :
  Wsl.trimmed_differs TrimSpace out lit = true <-> TrimSpace out <> lit.
Proof.
  unfold Wsl.trimmed_differs. rewrite negb_true_iff.
  destruct (String.eqb_spec (TrimSpace out) lit); split; congruence.
Qed.

(** ** Properties of the probes *)
Module WslSpec.

Import Wsl Scenarios Samples.

(** A variant is passed over when its command fails or prints the
    placeholder back. *)
Lemma variant_rejected (TrimSpace : string -> string)
    (e : option error) (out lit : string) :
  e <> None \/ TrimSpace out = lit ->
  is_nil e && trimmed_differs TrimSpace out lit = false.
Proof.
  intros [He | Hl].
  - destruct e; [reflexivity | congruence].
  - unfold trimmed_differs. rewrite Hl, String.eqb_refl. apply andb_false_r.
Qed.

Lemma rejected_dec (TrimSpace : string -> string) (lit : string)
    (r : string * option error) :
  is_nil (snd r) && trimmed_differs TrimSpace (fst r) lit = false
  <-> rejected TrimSpace lit r.
Proof.
  unfold rejected. rewrite andb_false_iff. split.
  - intros [Hn | Hd].
    + left. intros Heq. rewrite Heq in Hn. discriminate.
    + right. unfold trimmed_differs in Hd. apply negb_false_iff in Hd.
      now apply String.eqb_eq.
  - intros [He | Hl].
    + left. now destruct (snd r).
    + right. unfold trimmed_differs. now rewrite Hl, String.eqb_refl.
Qed.

Ltac step_probe :=
  match goal with
  | H : ?Output ?c ?w = _ |- context [?Output ?c ?w] =>
      rewrite H; cbn [is_nil andb]
  end.

Ltac run_probe f :=
  unfold f, bind, ret; repeat step_probe.

(** Running a probe on ASCII outputs with library functions that are
    only known to do there what the Go functions do. *)
Ltac ascii_step TS TL Ht Hl :=
  match goal with
  | |- context [TL ?s] => rewrite (Hl s eq_refl)
  | |- context [TS ?s] => rewrite (Ht s eq_refl)
  end.

Ltac run_on_ascii f TS TL Ht Hl :=
  unfold f, GetWshPath, GetWshPath_src, bind, ret, trimmed_differs; simpl;
  repeat (ascii_step TS TL Ht Hl; simpl); reflexivity.

(** [GetClientOs] on the results of its three commands. *)
Lemma GetClientOs_unfold (TrimSpace ToLower : string -> string) (W : Type)
    (Output : string -> M W (string * option error)) (w : W) :
  let r1 := Output "uname -s" w in
  let r2 := Output "echo %OS%" (snd r1) in
  let r3 := Output "echo $env:OS" (snd r2) in
  GetClientOs TrimSpace ToLower W Output w =
    if is_nil (snd (fst r1))
    then (Some (TrimSpace (ToLower (fst (fst r1))), None), snd r1)
    else if is_nil (snd (fst r2))
            && trimmed_differs TrimSpace (fst (fst r2)) "%OS%"
    then (Some (truncate_at "_" (TrimSpace (ToLower (fst (fst r2)))), None), snd r2)
    else if is_nil (snd (fst r3))
            && trimmed_differs TrimSpace (fst (fst r3)) "$env:OS"
    then (Some (truncate_at "_" (TrimSpace (ToLower (fst (fst r3)))), None), snd r3)
    else (Some (EmptyString,
                Some (osErrorf (snd (fst r1)) (snd (fst r2)) (snd (fst r3)))),
          snd r3).
Proof.
  unfold GetClientOs, bind, ret. cbv zeta.
  destruct (Output "uname -s" w) as [[o1 e1] w1]. cbn [fst snd].
  destruct (is_nil e1); [reflexivity|].
  destruct (Output "echo %OS%" w1) as [[o2 e2] w2]. cbn [fst snd].
  destruct (is_nil e2 && _); [now rewrite first_segment_truncate|].
  destruct (Output "echo $env:OS" w2) as [[o3 e3] w3]. cbn [fst snd].
  destruct (is_nil e3 && _); [now rewrite first_segment_truncate | reflexivity].
Qed.

(** [GetClientArch] on the results of its three commands. *)
Lemma GetClientArch_unfold (TrimSpace ToLower : string -> string) (W : Type)
    (Output : string -> M W (string * option error)) (w : W) :
  let r1 := Output "uname -m" w in
  let r2 := Output "echo %PROCESSOR_ARCHITECTURE%" (snd r1) in
  let r3 := Output "echo $env:PROCESSOR_ARCHITECTURE" (snd r2) in
  GetClientArch TrimSpace ToLower W Output w =
    if is_nil (snd (fst r1))
    then ((if String.eqb (TrimSpace (ToLower (fst (fst r1)))) "x86_64"
           then "x64" else TrimSpace (ToLower (fst (fst r1))), None), snd r1)
    else if is_nil (snd (fst r2))
            && trimmed_differs TrimSpace (fst (fst r2)) "%PROCESSOR_ARCHITECTURE%"
    then ((TrimSpace (ToLower (fst (fst r2))), None), snd r2)
    else if is_nil (snd (fst r3))
            && trimmed_differs TrimSpace (fst (fst r3))
                 "$env:PROCESSOR_ARCHITECTURE"
    then ((TrimSpace (ToLower (fst (fst r3))), None), snd r3)
    else ((EmptyString,
           Some (archErrorf (snd (fst r1)) (snd (fst r2)) (snd (fst r3)))),
          snd r3).
Proof.
  unfold GetClientArch, bind, ret. cbv zeta.
  destruct (Output "uname -m" w) as [[o1 e1] w1]. cbn [fst snd].
  destruct (is_nil e1); [now destruct (String.eqb _ _)|].
  destruct (Output "echo %PROCESSOR_ARCHITECTURE%" w1) as [[o2 e2] w2]. cbn [fst snd].
  destruct (is_nil e2 && _); [reflexivity|].
  destruct (Output "echo $env:PROCESSOR_ARCHITECTURE" w2) as [[o3 e3] w3].
  cbn [fst snd]. now destruct (is_nil e3 && _).
Qed.

(** [GetWshPath] on the results of its three commands. *)
Lemma GetWshPath_unfold (TrimSpace : string -> string) (W : Type)
    (Output : string -> M W (string * option error)) (w : W) :
  let r1 := Output "which wsh" w in
  let r2 := Output "where.exe wsh" (snd r1) in
  let r3 := Output wshCmdProbe (snd r2) in
  GetWshPath TrimSpace W Output w =
    if is_nil (snd (fst r1)) then (TrimSpace (fst (fst r1)), snd r1)
    else if is_nil (snd (fst r2)) then (TrimSpace (fst (fst r2)), snd r2)
    else if is_nil (snd (fst r3)) && trimmed_differs TrimSpace (fst (fst r3)) "none"
    then (TrimSpace (fst (fst r3)), snd r3)
    else ("~/.waveterm/bin/wsh", snd r3).
Proof.
  unfold GetWshPath, GetWshPath_src, bind, ret. cbv zeta.
  destruct (Output "which wsh" w) as [[o1 e1] w1]. cbn [fst snd].
  destruct (is_nil e1); [reflexivity|].
  destruct (Output "where.exe wsh" w1) as [[o2 e2] w2]. cbn [fst snd].
  destruct (is_nil e2); [reflexivity|].
  destruct (Output wshCmdProbe w2) as [[o3 e3] w3]. cbn [fst snd].
  now destruct (is_nil e3 && _).
Qed.

(** C6, as amended: the [uname -s] answer is lowercased and trimmed and
    nothing else; the answers of the [cmd] and PowerShell variants are
    lowercased, trimmed and cut at the first underscore; every
    successful result is one of these three. With [uname] failing, [cmd]
    echoing [%OS%] back and PowerShell printing [Windows_NT], the probe
    answers [windows]. [TrimSpace] and [ToLower] are the functions of the
    Go library, of which the last part uses what they do on ASCII. *)
Theorem GetClientOs_by_variant :
  forall (TrimSpace ToLower : string -> string)
         (W : Type) (Output : string -> M W (string * option error)) (w : W),
    (forall out w1,
        Output "uname -s" w = ((out, None), w1) ->
        GetClientOs TrimSpace ToLower W Output w
        = (Some (TrimSpace (ToLower out), None), w1))
    /\ (forall o1 e1 w1 out w2,
        Output "uname -s" w = ((o1, Some e1), w1) ->
        Output "echo %OS%" w1 = ((out, None), w2) ->
        TrimSpace out <> "%OS%" ->
        GetClientOs TrimSpace ToLower W Output w =
          (Some (truncate_at "_" (TrimSpace (ToLower out)), None), w2))
    /\ (forall o1 e1 w1 o2 e2 w2 out w3,
        Output "uname -s" w = ((o1, Some e1), w1) ->
        Output "echo %OS%" w1 = ((o2, e2), w2) ->
        e2 <> None \/ TrimSpace o2 = "%OS%" ->
        Output "echo $env:OS" w2 = ((out, None), w3) ->
        TrimSpace out <> "$env:OS" ->
        GetClientOs TrimSpace ToLower W Output w =
          (Some (truncate_at "_" (TrimSpace (ToLower out)), None), w3))
    /\ (forall s w',
        GetClientOs TrimSpace ToLower W Output w = (Some (s, None), w') ->
        let r1 := Output "uname -s" w in
        let r2 := Output "echo %OS%" (snd r1) in
        let r3 := Output "echo $env:OS" (snd r2) in
        (snd (fst r1) = None /\ s = TrimSpace (ToLower (fst (fst r1))))
        \/ (failed (fst r1) /\ ~ rejected TrimSpace "%OS%" (fst r2)
            /\ s = truncate_at "_" (TrimSpace (ToLower (fst (fst r2)))))
        \/ (failed (fst r1) /\ rejected TrimSpace "%OS%" (fst r2)
            /\ ~ rejected TrimSpace "$env:OS" (fst r3)
            /\ s = truncate_at "_" (TrimSpace (ToLower (fst (fst r3))))))
    /\ (agree_on_ascii TrimSpace asciiTrimSpace ->
        agree_on_ascii ToLower asciiToLower ->
        GetClientOs TrimSpace ToLower unit powershellDistro tt
        = (Some ("windows", None), tt)).
Proof.
  intros TrimSpace ToLower W Output w. split; [|split; [|split; [|split]]].
  - intros out w1 H1. now run_probe GetClientOs.
  - intros o1 e1 w1 out w2 H1 H2 Hne. run_probe GetClientOs.
    apply trimmed_differs_true in Hne. rewrite Hne.
    now rewrite first_segment_truncate.
  - intros o1 e1 w1 o2 e2 w2 out w3 H1 H2 Hrej H3 Hne. run_probe GetClientOs.
    rewrite (variant_rejected _ _ _ _ Hrej).
    step_probe. apply trimmed_differs_true in Hne. rewrite Hne.
    now rewrite first_segment_truncate.
  - intros s w' Hrun r1 r2 r3. rewrite GetClientOs_unfold in Hrun.
    fold r1 r2 r3 in Hrun. cbv zeta in Hrun.
    pose proof (rejected_dec TrimSpace "%OS%" (fst r2)) as H2.
    pose proof (rejected_dec TrimSpace "$env:OS" (fst r3)) as H3.
    unfold failed.
    destruct (snd (fst r1)) as [e1|]; cbn [is_nil] in Hrun.
    2:{ left. inversion Hrun. now split. }
    right. destruct (is_nil (snd (fst r2)) && _).
    { left. inversion Hrun. split; [discriminate|]. split; [|reflexivity].
      intros Hr. apply H2 in Hr. discriminate. }
    right. destruct (is_nil (snd (fst r3)) && _); [|discriminate].
    inversion Hrun. split; [discriminate|]. split; [now apply H2|].
    split; [|reflexivity]. intros Hr. apply H3 in Hr. discriminate.
  - intros Ht Hl. run_on_ascii GetClientOs TrimSpace ToLower Ht Hl.
Qed.

(** The PowerShell variant at work on the PowerShell distro. *)
Lemma GetClientOs_by_variant_witness :
  GetClientOs asciiTrimSpace asciiToLower unit powershellDistro tt =
    (Some (truncate_at "_"
             (asciiTrimSpace (asciiToLower ("Windows_NT" ++ CRLF))), None), tt).
Proof.
  refine (proj1 (proj2 (proj2
            (GetClientOs_by_variant asciiTrimSpace asciiToLower
               unit powershellDistro tt)))
            EmptyString "exit status 127" tt ("%OS%" ++ CRLF) None tt
            ("Windows_NT" ++ CRLF) tt eq_refl eq_refl (or_intror eq_refl) eq_refl _).
  vm_compute. discriminate.
Defined.

(** C6, as stated, fails on the [uname -s] variant: the answer of a
    Cygwin shell keeps everything after its underscore, with any
    [TrimSpace] and [ToLower] that do on ASCII what the Go functions do. *)
Lemma GetClientOs_uname_not_truncated :
  (GetClientOs asciiTrimSpace asciiToLower unit cygwinDistro tt
   = (Some ("cygwin_nt-10.0", None), tt)
   /\ truncate_at "_" (asciiTrimSpace (asciiToLower ("CYGWIN_NT-10.0" ++ LF)))
      = "cygwin"
   /\ "cygwin_nt-10.0" <> "cygwin")
  /\ (forall TrimSpace ToLower : string -> string,
        agree_on_ascii TrimSpace asciiTrimSpace ->
        agree_on_ascii ToLower asciiToLower ->
        GetClientOs TrimSpace ToLower unit cygwinDistro tt
        = (Some ("cygwin_nt-10.0", None), tt)
        /\ truncate_at "_" (TrimSpace (ToLower ("CYGWIN_NT-10.0" ++ LF)))
           = "cygwin").
Proof.
  split; [repeat split; discriminate|].
  intros TrimSpace ToLower Ht Hl. split.
  - run_on_ascii GetClientOs TrimSpace ToLower Ht Hl.
  - repeat ascii_step TrimSpace ToLower Ht Hl. reflexivity.
Qed.

(** C7: [uname -m] answers are lowercased and trimmed, [x86_64] alone
    becomes [x64]; with [uname] failing the [cmd] and then the PowerShell
    variant is taken unless it fails or prints its placeholder back;
    when each of the three is passed over the probe fails, and its
    message lists the three errors as they are. [TrimSpace] and
    [ToLower] are the functions of the Go library, of which the two
    sample runs use what they do on ASCII. *)
Theorem GetClientArch_by_variant :
  forall (TrimSpace ToLower : string -> string)
         (W : Type) (Output : string -> M W (string * option error)) (w : W),
    (forall out w1,
        Output "uname -m" w = ((out, None), w1) ->
        (TrimSpace (ToLower out) = "x86_64" ->
         GetClientArch TrimSpace ToLower W Output w = (("x64", None), w1))
        /\ (TrimSpace (ToLower out) <> "x86_64" ->
            GetClientArch TrimSpace ToLower W Output w
            = ((TrimSpace (ToLower out), None), w1)))
    /\ (forall o1 e1 w1 out w2,
        Output "uname -m" w = ((o1, Some e1), w1) ->
        Output "echo %PROCESSOR_ARCHITECTURE%" w1 = ((out, None), w2) ->
        TrimSpace out <> "%PROCESSOR_ARCHITECTURE%" ->
        GetClientArch TrimSpace ToLower W Output w
        = ((TrimSpace (ToLower out), None), w2))
    /\ (forall o1 e1 w1 o2 e2 w2 out w3,
        Output "uname -m" w = ((o1, Some e1), w1) ->
        Output "echo %PROCESSOR_ARCHITECTURE%" w1 = ((o2, e2), w2) ->
        e2 <> None \/ TrimSpace o2 = "%PROCESSOR_ARCHITECTURE%" ->
        Output "echo $env:PROCESSOR_ARCHITECTURE" w2 = ((out, None), w3) ->
        TrimSpace out <> "$env:PROCESSOR_ARCHITECTURE" ->
        GetClientArch TrimSpace ToLower W Output w
        = ((TrimSpace (ToLower out), None), w3))
    /\ (forall o1 e1 w1 o2 e2 w2 o3 e3 w3,
        Output "uname -m" w = ((o1, Some e1), w1) ->
        Output "echo %PROCESSOR_ARCHITECTURE%" w1 = ((o2, e2), w2) ->
        e2 <> None \/ TrimSpace o2 = "%PROCESSOR_ARCHITECTURE%" ->
        Output "echo $env:PROCESSOR_ARCHITECTURE" w2 = ((o3, e3), w3) ->
        e3 <> None \/ TrimSpace o3 = "$env:PROCESSOR_ARCHITECTURE" ->
        GetClientArch TrimSpace ToLower W Output w =
          ((EmptyString,
            Some ("unable to determine architecture: {unix: " ++ e1 ++
                  ", cmd: " ++ fmt_s e2 ++
                  ", powershell: " ++ fmt_s e3 ++ "}")), w3))
    /\ (forall o1 e1 w1 o2 e2 w2 o3 e3 w3,
        Output "uname -m" w = ((o1, Some e1), w1) ->
        Output "echo %PROCESSOR_ARCHITECTURE%" w1 = ((o2, Some e2), w2) ->
        Output "echo $env:PROCESSOR_ARCHITECTURE" w2 = ((o3, Some e3), w3) ->
        GetClientArch TrimSpace ToLower W Output w =
          ((EmptyString,
            Some ("unable to determine architecture: {unix: " ++ e1 ++
                  ", cmd: " ++ e2 ++ ", powershell: " ++ e3 ++ "}")), w3))
    /\ (agree_on_ascii TrimSpace asciiTrimSpace ->
        agree_on_ascii ToLower asciiToLower ->
        GetClientArch TrimSpace ToLower unit cygwinDistro tt = (("x64", None), tt)
        /\ GetClientArch TrimSpace ToLower unit armDistro tt
           = (("arm64", None), tt)).
Proof.
  intros TrimSpace ToLower W Output w.
  split; [|split; [|split; [|split; [|split]]]].
  - intros out w1 H1. split.
    + intros Heq. run_probe GetClientArch. now rewrite Heq.
    + intros Hne. run_probe GetClientArch.
      now destruct (String.eqb_spec (TrimSpace (ToLower out)) "x86_64").
  - intros o1 e1 w1 out w2 H1 H2 Hne. run_probe GetClientArch.
    apply trimmed_differs_true in Hne. now rewrite Hne.
  - intros o1 e1 w1 o2 e2 w2 out w3 H1 H2 Hrej H3 Hne. run_probe GetClientArch.
    rewrite (variant_rejected _ _ _ _ Hrej). step_probe.
    apply trimmed_differs_true in Hne. now rewrite Hne.
  - intros o1 e1 w1 o2 e2 w2 o3 e3 w3 H1 H2 Hrej2 H3 Hrej3.
    run_probe GetClientArch.
    rewrite (variant_rejected _ _ _ _ Hrej2). step_probe.
    now rewrite (variant_rejected _ _ _ _ Hrej3).
  - intros o1 e1 w1 o2 e2 w2 o3 e3 w3 H1 H2 H3. now run_probe GetClientArch.
  - intros Ht Hl. split; run_on_ascii GetClientArch TrimSpace ToLower Ht Hl.
Qed.

(** The architecture probe where no command works at all. *)
Lemma GetClientArch_by_variant_witness :
  GetClientArch asciiTrimSpace asciiToLower unit deadDistro tt =
    ((EmptyString,
      Some "unable to determine architecture: {unix: exit status 127, cmd: exit status 127, powershell: exit status 127}"),
     tt).
Proof.
  exact (proj1 (proj2 (proj2 (proj2 (proj2
           (GetClientArch_by_variant asciiTrimSpace asciiToLower
              unit deadDistro tt)))))
           EmptyString "exit status 127" tt
           EmptyString "exit status 127" tt
           EmptyString "exit status 127" tt eq_refl eq_refl eq_refl).
Defined.

Lemma length_zero_empty (s : string) :
  (String.length s =? 0)%nat = true <-> s = EmptyString.
Proof. destruct s; simpl; split; congruence. Qed.

Lemma found_dec (r : string * option error) :
  is_nil (snd r) && negb (String.length (fst r) =? 0)%nat = true <-> found r.
Proof.
  unfold found. rewrite andb_true_iff, is_nil_true, negb_true_iff.
  rewrite <- length_zero_empty.
  destruct (String.length (fst r) =? 0)%nat; intuition congruence.
Qed.

(** [hasBashInstalled], spelled out on the two command results. *)
Lemma hasBashInstalled_unfold (W : Type)
    (Output : string -> M W (string * option error)) (w : W) :
  let r1 := Output "which bash" w in
  let r2 := Output "where.exe bash" (snd r1) in
  hasBashInstalled W Output w =
    if is_nil (snd (fst r1)) && negb (String.length (fst (fst r1)) =? 0)%nat
    then ((true, None), snd r1)
    else if is_nil (snd (fst r2)) && negb (String.length (fst (fst r2)) =? 0)%nat
         then ((true, None), snd r2)
         else ((false, None), snd r2).
Proof.
  unfold hasBashInstalled, bind, ret. cbv zeta.
  destruct (Output "which bash" w) as [[out1 e1] w1]. cbn [fst snd].
  destruct (is_nil e1 && _); [reflexivity|].
  destruct (Output "where.exe bash" w1) as [[out2 e2] w2]. cbn [fst snd].
  now destruct (is_nil e2 && _).
Qed.

Lemma hasBashInstalled_nil_error (W : Type)
    (Output : string -> M W (string * option error)) (w : W) :
  snd (fst (hasBashInstalled W Output w)) = None.
Proof.
  rewrite hasBashInstalled_unfold. cbv zeta.
  now repeat match goal with |- context [if ?b then _ else _] => destruct b end.
Qed.

(** C9: [hasBashInstalled] never returns an error; it answers true
    exactly when [which bash] succeeds with some output or, that not
    being so, [where.exe bash] does; and [CpHostToRemote] never leaves
    through its bash-probe error return. *)
Theorem hasBashInstalled_never_errors :
  forall (W : Type) (Output : string -> M W (string * option error)) (w : W),
    let r1 := Output "which bash" w in
    let r2 := Output "where.exe bash" (snd r1) in
    snd (fst (hasBashInstalled W Output w)) = None
    /\ (fst (fst (hasBashInstalled W Output w)) = true <->
        found (fst r1) \/ (~ found (fst r1) /\ found (fst r2)))
    /\ (fst (fst (hasBashInstalled W Output w)) = false <->
        ~ found (fst r1) /\ ~ found (fst r2))
    /\ (forall Dir ToSlash Execute StdinPipe Start CopyKillWait Open
               sourcePath destPath e,
          fst (CpHostToRemote_ret W Output Dir ToSlash Execute StdinPipe Start
                 CopyKillWait Open sourcePath destPath w)
          <> RetBashProbeErr e).
Proof.
  intros W Output w r1 r2. split; [apply hasBashInstalled_nil_error|].
  split; [|split].
  - rewrite hasBashInstalled_unfold. fold r1 r2. cbv zeta.
    rewrite <- !found_dec.
    destruct (is_nil (snd (fst r1)) && _); cbn [fst snd].
    + intuition.
    + destruct (is_nil (snd (fst r2)) && _); cbn [fst snd]; intuition congruence.
  - rewrite hasBashInstalled_unfold. fold r1 r2. cbv zeta.
    rewrite <- !found_dec.
    destruct (is_nil (snd (fst r1)) && _); cbn [fst snd].
    + intuition congruence.
    + destruct (is_nil (snd (fst r2)) && _); cbn [fst snd]; intuition congruence.
  - intros. unfold CpHostToRemote_ret, bind.
    pose proof (hasBashInstalled_nil_error W Output w) as Hnil.
    destruct (hasBashInstalled W Output w) as [[b err] w1]. cbn [fst snd] in Hnil.
    subst err.
    repeat match goal with
           | |- context [let (_, _) := ?m in _] => destruct m as [[?|] ?]
           end; cbn; try discriminate.
    destruct (CopyKillWait _ _ _). cbn. discriminate.
Qed.

(** C10, as amended: [GetWshPath] always yields a path. When
    [which wsh] fails, [where.exe wsh] fails and the [cmd] probe fails
    or prints [none], the path is [~/.waveterm/bin/wsh]; in every other
    case it is the trimmed output of the first of the three commands
    that was taken, whatever that output is. *)
Theorem GetWshPath_cases :
  forall (TrimSpace : string -> string)
         (W : Type) (Output : string -> M W (string * option error)) (w : W),
    let r1 := Output "which wsh" w in
    let r2 := Output "where.exe wsh" (snd r1) in
    let r3 := Output wshCmdProbe (snd r2) in
    (failed (fst r1) -> failed (fst r2) ->
     failed (fst r3) \/ TrimSpace (fst (fst r3)) = "none" ->
     GetWshPath TrimSpace W Output w = ("~/.waveterm/bin/wsh", snd r3))
    /\ (snd (fst r1) = None ->
        GetWshPath TrimSpace W Output w = (TrimSpace (fst (fst r1)), snd r1))
    /\ (failed (fst r1) -> snd (fst r2) = None ->
        GetWshPath TrimSpace W Output w = (TrimSpace (fst (fst r2)), snd r2))
    /\ (failed (fst r1) -> failed (fst r2) ->
        snd (fst r3) = None -> TrimSpace (fst (fst r3)) <> "none" ->
        GetWshPath TrimSpace W Output w = (TrimSpace (fst (fst r3)), snd r3)).
Proof.
  intros TrimSpace W Output w r1 r2 r3. rewrite GetWshPath_unfold.
  fold r1 r2 r3. cbv zeta. unfold failed.
  pose proof (rejected_dec TrimSpace "none" (fst r3)) as H3. unfold rejected in H3.
  destruct (snd (fst r1)) as [e1|]; cbn [is_nil];
    [|repeat split; intros; congruence].
  destruct (snd (fst r2)) as [e2|]; cbn [is_nil];
    [|repeat split; intros; congruence].
  split; [|split; [|split]].
  - intros _ _ Hrej. apply H3 in Hrej. now rewrite Hrej.
  - discriminate.
  - discriminate.
  - intros _ _ Hnil Hne.
    destruct (is_nil (snd (fst r3)) && _); [reflexivity|].
    destruct (proj1 H3 eq_refl) as [E | E]; congruence.
Qed.

(** Where nothing is found, and where the [cmd] probe says [none]. *)
Lemma GetWshPath_cases_witness :
  GetWshPath asciiTrimSpace unit deadDistro tt = ("~/.waveterm/bin/wsh", tt)
  /\ GetWshPath asciiTrimSpace unit sentinelDistro tt = ("~/.waveterm/bin/wsh", tt).
Proof.
  split.
  - refine (proj1 (GetWshPath_cases asciiTrimSpace unit deadDistro tt) _ _ _);
      [discriminate | discriminate | left; discriminate].
  - refine (proj1 (GetWshPath_cases asciiTrimSpace unit sentinelDistro tt) _ _ _);
      [discriminate | discriminate | right; reflexivity].
Defined.

(** C10, as stated, fails in one direction: [which wsh] may succeed and
    print the very path of the default, and then [GetWshPath] returns
    [~/.waveterm/bin/wsh] although no command has failed. *)
Lemma GetWshPath_default_without_failure :
  (GetWshPath asciiTrimSpace unit defaultPlaceDistro tt = ("~/.waveterm/bin/wsh", tt)
   /\ snd (fst (defaultPlaceDistro "which wsh" tt)) = None)
  /\ (forall TrimSpace : string -> string,
        agree_on_ascii TrimSpace asciiTrimSpace ->
        GetWshPath TrimSpace unit defaultPlaceDistro tt
        = ("~/.waveterm/bin/wsh", tt)).
Proof.
  split; [split; reflexivity|].
  intros TrimSpace Ht.
  unfold GetWshPath, GetWshPath_src, bind, ret. simpl.
  match goal with |- context [TrimSpace ?s] => rewrite (Ht s eq_refl) end.
  reflexivity.
Qed.

Section InstallerSpec.

Variable W : Type.
Variable Output : string -> M W (string * option error).
Variable Dir ToSlash : string -> string.
Variable Execute : string -> list (string * string) -> string.
Variable StdinPipe Start : string -> M W (option error).
Variable CopyKillWait : string -> string -> M W after_copy.
Variable Open : string -> M W (option error).

Let Cp := CpHostToRemote W Output Dir ToSlash Execute StdinPipe Start CopyKillWait Open.

(** C8: an error comes back from [CpHostToRemote] only from the pipe,
    from the start of the process or from opening the local file (the
    bash probe has no error to give); once these three went well the
    answer is nil, whatever the copy, the kill and the wait report. *)
Theorem CpHostToRemote_errors (sourcePath destPath : string) (w : W) :
  let probe := hasBashInstalled W Output w in
  let w1 := snd probe in
  let installCmd :=
    Execute (if fst (fst probe) then installTemplateRawBash
             else installTemplateRawDefault)
            (installWords Dir ToSlash destPath) in
  (forall e w',
      Cp sourcePath destPath w = (Some e, w') ->
      StdinPipe installCmd w1 = (Some e, w')
      \/ (exists w2,
            StdinPipe installCmd w1 = (None, w2)
            /\ Start installCmd w2 = (Some e, w'))
      \/ (exists w2 w3 e0,
            StdinPipe installCmd w1 = (None, w2)
            /\ Start installCmd w2 = (None, w3)
            /\ Open sourcePath w3 = (Some e0, w')
            /\ e = "cannot open local file " ++ sourcePath ++
                   " to send to host: " ++ e0))
  /\ (forall w2 w3 w4,
        StdinPipe installCmd w1 = (None, w2) ->
        Start installCmd w2 = (None, w3) ->
        Open sourcePath w3 = (None, w4) ->
        Cp sourcePath destPath w =
          (None, snd (CopyKillWait installCmd sourcePath w4))).
Proof.
  intros probe w1 installCmd.
  assert (Cp sourcePath destPath w =
          match StdinPipe installCmd w1 with
          | (Some e, w2) => (Some e, w2)
          | (None, w2) =>
              match Start installCmd w2 with
              | (Some e, w3) => (Some e, w3)
              | (None, w3) =>
                  match Open sourcePath w3 with
                  | (Some e0, w4) =>
                      (Some ("cannot open local file " ++ sourcePath ++
                             " to send to host: " ++ e0), w4)
                  | (None, w4) =>
                      (None, snd (CopyKillWait installCmd sourcePath w4))
                  end
              end
          end) as Hcp.
  { subst Cp installCmd w1 probe.
    unfold CpHostToRemote, CpHostToRemote_ret, bind, ret.
    pose proof (hasBashInstalled_nil_error W Output w) as Hnil.
    destruct (hasBashInstalled W Output w) as [[b err] w1].
    cbn [fst snd] in *. subst err.
    destruct (StdinPipe _ w1) as [[e|] w2]; [reflexivity|].
    destruct (Start _ w2) as [[e|] w3]; [reflexivity|].
    destruct (Open sourcePath w3) as [[e|] w4]; [reflexivity|].
    now destruct (CopyKillWait _ sourcePath w4). }
  rewrite Hcp. split.
  - intros e w' Hret.
    destruct (StdinPipe installCmd w1) as [[e1|] w2] eqn:E1; [left; exact Hret|].
    destruct (Start installCmd w2) as [[e2|] w3] eqn:E2.
    { right. left. exists w2. split; [reflexivity | now rewrite E2]. }
    destruct (Open sourcePath w3) as [[e3|] w4] eqn:E3; [|discriminate].
    right. right. exists w2, w3, e3. inversion Hret. subst.
    now rewrite E2, E3.
  - intros w2 w3 w4 H1 H2 H3. now rewrite H1, H2, H3.
Qed.

End InstallerSpec.

(** The installer on a remote whose copy breaks half way. *)
Lemma CpHostToRemote_errors_witness :
  CpHostToRemote unit cygwinDistro (fun p => p) (fun p => p) plainExecute
    (fun _ => ret None) (fun _ => ret None) (fun _ _ => ret brokenCopy)
    (fun _ => ret None) "/opt/wave/wsh" "~/.waveterm/bin/wsh" tt
  = (None, tt).
Proof.
  exact (proj2 (CpHostToRemote_errors unit cygwinDistro (fun p => p) (fun p => p)
                  plainExecute (fun _ => ret None) (fun _ => ret None)
                  (fun _ _ => ret brokenCopy) (fun _ => ret None)
                  "/opt/wave/wsh" "~/.waveterm/bin/wsh" tt)
               tt tt tt eq_refl eq_refl eq_refl).
Defined.

(** *** The probes run on the sample distros, on ASCII outputs *)

Example TrimSpace_uname_style :
  asciiTrimSpace (asciiToLower (" Darwin " ++ LF)) = "darwin".
Proof. reflexivity. Qed.

Example Split_cmd_style :
  Split "linux_something" "_" = ["linux"; "something"]
  /\ Split EmptyString "_" = [EmptyString]
  /\ first_segment "linux_something" = Some "linux".
Proof. repeat split. Qed.

Example GetClientOs_cmd :
  GetClientOs asciiTrimSpace asciiToLower unit cmdDistro tt
  = (Some ("windows", None), tt).
Proof. reflexivity. Qed.

Example GetClientArch_cmd :
  GetClientArch asciiTrimSpace asciiToLower unit cmdDistro tt
  = (("amd64", None), tt)
  /\ GetClientArch asciiTrimSpace asciiToLower unit powershellDistro tt
     = (("amd64", None), tt).
Proof. split; reflexivity. Qed.

Example GetWshPath_found :
  GetWshPath_src asciiTrimSpace unit armDistro tt
  = ((ViaWhich, "/usr/local/bin/wsh"), tt).
Proof. reflexivity. Qed.

Example hasBashInstalled_where :
  hasBashInstalled unit whereBashDistro tt = ((true, None), tt)
  /\ hasBashInstalled unit deadDistro tt = ((false, None), tt).
Proof. split; reflexivity. Qed.

Example IsPowershell_base_names :
  IsPowershell (fun p => p) "pwsh" = true
  /\ IsPowershell (fun p => p) "powershell.exe" = true
  /\ IsPowershell (fun p => p) "bash" = false.
Proof. repeat split. Qed.

End WslSpec.

(** ** Properties of the call and stream helpers *)
Module WshClientSpec.

Import Wsl WshClient StreamProps Scenarios.

(** *** Channel traces made of responses followed by a short tail *)
Section Traces.

Variable T : Type.
Variable zero : T.

Let V := RespOrErrorUnion T.
Let responses := responses T.
Let tail_of := tail_of T zero.

Lemma closes_responses (vals : list T) (tl : list (chan_op V)) :
  closes (responses vals ++ tl) = closes tl.
Proof. induction vals as [|d vals IH]; [reflexivity | exact IH]. Qed.

Lemma sent_responses (vals : list T) (tl : list (chan_op V)) :
  sent (responses vals ++ tl) = (map (respValue T) vals ++ sent tl)%list.
Proof. induction vals as [|d vals IH]; [reflexivity | simpl; now rewrite IH]. Qed.

Lemma chan_run_responses (vals : list T) (tl : list (chan_op V)) (rcv : list V) :
  chan_run {| received := rcv; closed := false |} (responses vals ++ tl) =
  chan_run {| received := (rcv ++ map (respValue T) vals)%list; closed := false |} tl.
Proof.
  revert rcv. induction vals as [|d vals IH]; intros rcv; simpl.
  - now rewrite app_nil_r.
  - rewrite IH. now rewrite <- app_assoc.
Qed.

Lemma tail_closes (tl : list (chan_op V)) (fin : bool) :
  tail_of tl fin -> closes tl = (if fin then 1 else 0).
Proof. now destruct 1. Qed.

Lemma tail_runs (tl : list (chan_op V)) (fin : bool) (rcv : list V) :
  tail_of tl fin ->
  chan_run {| received := rcv; closed := false |} tl =
  Some {| received := (rcv ++ sent tl)%list; closed := fin |}.
Proof. destruct 1; cbn; now rewrite ?app_nil_r. Qed.

Lemma trace_closed_at_most_once vals tl fin :
  tail_of tl fin -> closed_at_most_once (responses vals ++ tl).
Proof.
  intros Htl. split.
  - rewrite closes_responses, (tail_closes _ _ Htl). destruct fin; lia.
  - unfold make_chan. rewrite chan_run_responses, (tail_runs _ _ _ Htl).
    discriminate.
Qed.

Lemma trace_closed_once_at_end vals tl :
  tail_of tl true -> closed_once_at_end (responses vals ++ tl).
Proof.
  intros Htl. split.
  - now rewrite closes_responses, (tail_closes _ _ Htl).
  - inversion Htl; subst.
    + exists (responses vals). split; [reflexivity|].
      rewrite <- (app_nil_r (responses vals)). apply closes_responses.
    + exists (responses vals ++ [ChSend (errValue T zero e)])%list. split.
      * now rewrite <- app_assoc.
      * apply closes_responses.
Qed.

Lemma trace_silent_after_error vals tl fin :
  tail_of tl fin -> silent_after_error (responses vals ++ tl).
Proof.
  intros Htl l1 v l2. revert l1.
  induction vals as [|d vals IH]; intros l1 Heq Herr.
  - simpl in Heq. destruct Htl.
    + now destruct l1.
    + destruct l1 as [|? [|? ?]]; discriminate.
    + destruct l1 as [|? [|? [|? ?]]]; try discriminate.
      now inversion Heq.
  - destruct l1 as [|x l1]; simpl in Heq; inversion Heq; subst.
    + now elim Herr.
    + now apply (IH l1).
Qed.

Lemma trace_values vals tl fin (v : V) :
  tail_of tl fin -> In (ChSend v) (responses vals ++ tl) ->
  (exists d, In d vals /\ v = respValue T d) \/ (exists e, v = errValue T zero e).
Proof.
  intros Htl Hin. apply in_app_or in Hin. destruct Hin as [Hin | Hin].
  - left. unfold responses in Hin. apply in_map_iff in Hin.
    destruct Hin as [d [Hd Hin]]. exists d. split; [exact Hin | congruence].
  - right. destruct Htl; simpl in Hin.
    + contradiction.
    + destruct Hin as [Hin | []]. discriminate.
    + destruct Hin as [Hin | [Hin | []]]; [|discriminate].
      exists e. congruence.
Qed.

End Traces.

(** *** The goroutine of the stream helper *)
Section StreamSpec.

Variable T : Type.
Variable zero : T.
Variable Data : Type.
Variable Envelope : Type.
Variable WshRpc : Type.
Variable R : Type.
Variable Handler : Type.
Variable SendComplexRequest :
  WshRpc -> string -> Data -> RpcOpts -> M R (Handler * option error).
Variable ResponseDone : M Handler bool.
Variable NextResponse : M Handler (Envelope * option error).
Variable ReUnmarshal : T -> Envelope -> T * option error.

Let loop := streamLoop T zero Envelope Handler ResponseDone NextResponse ReUnmarshal.
Let helper :=
  sendRpcRequestResponseStreamHelper T zero Data Envelope WshRpc R Handler
    SendComplexRequest ResponseDone NextResponse ReUnmarshal.
Let decoded (d : T) : Prop := exists resp, ReUnmarshal zero resp = (d, None).

Lemma streamLoop_trace (fuel : nat) (h : Handler) :
  exists vals tl,
    ops (loop fuel h) = (responses T vals ++ tl)%list
    /\ tail_of T zero tl (returned (loop fuel h))
    /\ Forall decoded vals.
Proof.
  revert h. induction fuel as [|fuel IH]; intros h.
  - exists [], []. repeat split; constructor.
  - subst loop. simpl.
    destruct (ResponseDone h) as [[|] h1].
    { exists [], [ChClose]. repeat split; constructor. }
    destruct (NextResponse h1) as [[resp [e|]] h2].
    { exists [], [ChSend (errValue T zero e); ChClose]. repeat split; constructor. }
    destruct (ReUnmarshal zero resp) as [d [e|]] eqn:Hd.
    { exists [], [ChSend (errValue T zero e); ChClose]. repeat split; constructor. }
    destruct (IH h2) as (vals & tl & Hops & Htl & Hvals).
    exists (d :: vals), tl. cbn [ops returned]. repeat split.
    + now rewrite Hops.
    + exact Htl.
    + constructor; [now exists resp | exact Hvals].
Qed.

Lemma streamLoop_ends (h : Handler) :
  ends T zero Envelope Handler ResponseDone NextResponse ReUnmarshal h ->
  exists n, forall fuel, n <= fuel -> returned (loop fuel h) = true.
Proof.
  induction 1 as [h h1 Hd | h h1 resp e h2 Hd Hn | h h1 resp h2 d e Hd Hn Hu
                 | h h1 resp h2 d Hd Hn Hu _ [n IH]].
  1-3: exists 1; intros [|fuel] Hle; [lia|]; subst loop; simpl;
       rewrite Hd; try rewrite Hn; try rewrite Hu; reflexivity.
  exists (S n). intros [|fuel] Hle; [lia|]. subst loop. simpl.
  rewrite Hd, Hn, Hu. cbn [returned]. apply IH. lia.
Qed.

Lemma streamLoop_returned_ends (fuel : nat) (h : Handler) :
  returned (loop fuel h) = true ->
  ends T zero Envelope Handler ResponseDone NextResponse ReUnmarshal h.
Proof.
  revert h. induction fuel as [|fuel IH]; intros h; [discriminate|].
  subst loop. simpl.
  destruct (ResponseDone h) as [[|] h1] eqn:Hd.
  { intros _. eapply ends_done. exact Hd. }
  destruct (NextResponse h1) as [[resp [e|]] h2] eqn:Hn.
  { intros _. eapply ends_transport_error; eassumption. }
  destruct (ReUnmarshal zero resp) as [d [e|]] eqn:Hu.
  { intros _. eapply ends_decode_error; eassumption. }
  cbn [returned]. intros Hret. eapply ends_later; try eassumption.
  now apply IH.
Qed.

Lemma streamLoop_yields (h : Handler) (envs : list Envelope) (vals : list T) :
  yields Envelope Handler ResponseDone NextResponse h envs ->
  decode_to T zero Envelope ReUnmarshal envs vals ->
  forall fuel, List.length envs < fuel ->
    loop fuel h = {| ops := (responses T vals ++ [ChClose])%list; returned := true |}.
Proof.
  intros Hy. revert vals.
  induction Hy as [h h1 Hd | h h1 resp h2 rest Hd Hn _ IH]; intros vals Hdec.
  - inversion Hdec; subst. intros [|fuel] Hlt; [lia|]. subst loop. simpl.
    now rewrite Hd.
  - inversion Hdec as [|? d ? vals' Hu Hrest]; subst.
    intros [|fuel] Hlt; [simpl in Hlt; lia|]. subst loop. simpl.
    rewrite Hd, Hn, Hu. simpl in Hlt.
    rewrite (IH vals' Hrest fuel) by lia. reflexivity.
Qed.

(** The stream helper, spelled out. *)
Lemma helper_nil fuel command data opts st :
  helper fuel None command data opts st =
    (Returns (rtnErr T zero nilRpcError), st).
Proof. subst helper. unfold sendRpcRequestResponseStreamHelper. now destruct opts. Qed.

Lemma helper_some fuel rpc command data opts st :
  helper fuel (Some rpc) command data opts st =
    let '((h, err), r') := SendComplexRequest rpc command data (effective opts) (fst st) in
    (Returns (match err with
              | Some e => rtnErr T zero e
              | None => loop fuel h
              end),
     (r', (snd st ++ [CallSendComplexRequest command])%list)).
Proof.
  subst helper loop. unfold sendRpcRequestResponseStreamHelper, bind, ret, logged.
  destruct opts as [o|]; cbn [effective];
    destruct (SendComplexRequest rpc command data _ (fst st)) as [[h [e|]] r'];
    reflexivity.
Qed.

Lemma rtnErr_trace (e : error) :
  ops (rtnErr T zero e) = (responses T [] ++ [ChSend (errValue T zero e); ChClose])%list
  /\ tail_of T zero [ChSend (errValue T zero e); ChClose] (returned (rtnErr T zero e)).
Proof. split; [reflexivity | constructor]. Qed.

(** Whatever the helper returns is a run of decoded responses followed
    by one of the three tails. *)
Lemma helper_trace fuel w command data opts st :
  exists g st' vals tl,
    helper fuel w command data opts st = (Returns g, st')
    /\ ops g = (responses T vals ++ tl)%list
    /\ tail_of T zero tl (returned g)
    /\ Forall decoded vals.
Proof.
  destruct w as [rpc|].
  - rewrite helper_some.
    destruct (SendComplexRequest rpc command data _ (fst st)) as [[h [e|]] r'].
    + do 2 eexists. exists [], [ChSend (errValue T zero e); ChClose].
      repeat split; constructor.
    + destruct (streamLoop_trace fuel h) as (vals & tl & H1 & H2 & H3).
      do 2 eexists. exists vals, tl. repeat split; eassumption.
  - rewrite helper_nil. do 2 eexists.
    exists [], [ChSend (errValue T zero nilRpcError); ChClose].
    repeat split; constructor.
Qed.

(** C1, as amended: on every run the channel is closed at most once
    and nothing is sent after the close, no value follows a value whose
    error is set, and a goroutine that has returned has closed the
    channel once, last of all; when the request cannot be initiated (nil
    transport, or an error from [SendComplexRequest]) the channel carries
    one error value and is closed; when the exchange comes to an end
    after finitely many responses the goroutine returns, so the channel
    is closed exactly once; and when the exchange never comes to an end
    the goroutine never returns and the channel stays open. *)
Theorem stream_channel_discipline :
  forall (w : option WshRpc) (command : string) (data : Data)
         (opts : option RpcOpts) (st : R * list call),
    (forall fuel, exists g st',
        helper fuel w command data opts st = (Returns g, st')
        /\ closed_at_most_once (ops g)
        /\ silent_after_error (ops g)
        /\ (returned g = true -> closed_once_at_end (ops g))
        /\ (w = None ->
            ops g = [ChSend (errValue T zero nilRpcError); ChClose]
            /\ returned g = true)
        /\ (forall rpc h e r',
              w = Some rpc ->
              SendComplexRequest rpc command data (effective opts) (fst st)
                = ((h, Some e), r') ->
              ops g = [ChSend (errValue T zero e); ChClose]
              /\ returned g = true))
    /\ (forall rpc h r',
          w = Some rpc ->
          SendComplexRequest rpc command data (effective opts) (fst st)
            = ((h, None), r') ->
          ends T zero Envelope Handler ResponseDone NextResponse ReUnmarshal h ->
          exists n, forall fuel, n <= fuel ->
            exists g st',
              helper fuel w command data opts st = (Returns g, st')
              /\ returned g = true
              /\ closed_once_at_end (ops g))
    /\ (forall rpc h r',
          w = Some rpc ->
          SendComplexRequest rpc command data (effective opts) (fst st)
            = ((h, None), r') ->
          ~ ends T zero Envelope Handler ResponseDone NextResponse ReUnmarshal h ->
          forall fuel,
            exists g st',
              helper fuel w command data opts st = (Returns g, st')
              /\ returned g = false
              /\ closes (ops g) = 0).
Proof.
  intros w command data opts st. split; [|split].
  - intros fuel.
    destruct (helper_trace fuel w command data opts st)
      as (g & st' & vals & tl & Hrun & Hops & Htl & _).
    exists g, st'. split; [exact Hrun|]. rewrite Hops.
    split; [now apply trace_closed_at_most_once with (zero := zero) (fin := returned g)|].
    split; [now apply trace_silent_after_error with (zero := zero) (fin := returned g)|].
    split.
    { intros Hret. rewrite Hret in Htl.
      now apply trace_closed_once_at_end with (zero := zero). }
    split.
    + intros ->. rewrite helper_nil in Hrun. inversion Hrun; subst g.
      rewrite <- Hops. now split.
    + intros rpc h e r' -> Hsend. rewrite helper_some, Hsend in Hrun.
      inversion Hrun; subst g. rewrite <- Hops. now split.
  - intros rpc h r' -> Hsend Hends.
    destruct (streamLoop_ends h Hends) as [n Hn]. exists n. intros fuel Hle.
    rewrite helper_some, Hsend. do 2 eexists. split; [reflexivity|].
    split; [now apply Hn|].
    destruct (streamLoop_trace fuel h) as (vals & tl & Hops & Htl & _).
    fold loop. rewrite Hops. rewrite (Hn fuel Hle) in Htl.
    now apply trace_closed_once_at_end with (zero := zero).
  - intros rpc h r' -> Hsend Hnever fuel.
    rewrite helper_some, Hsend. do 2 eexists. split; [reflexivity|].
    fold loop.
    destruct (returned (loop fuel h)) eqn:Hret.
    { elim Hnever. now apply (streamLoop_returned_ends fuel). }
    split; [reflexivity|].
    destruct (streamLoop_trace fuel h) as (vals & tl & Hops & Htl & _).
    rewrite Hops, closes_responses. rewrite Hret in Htl.
    now rewrite (tail_closes T zero tl false Htl).
Qed.

(** C4: when the transport hands out [n] envelopes that all decode and
    then reports done, the goroutine sends the [n] decoded responses in
    that order and closes the channel: the consumer receives just these
    values and then sees the channel closed. *)
Theorem stream_delivers_in_order :
  forall (rpc : WshRpc) (command : string) (data : Data)
         (opts : option RpcOpts) (st : R * list call)
         (h : Handler) (r' : R) (envs : list Envelope) (vals : list T),
    SendComplexRequest rpc command data (effective opts) (fst st)
      = ((h, None), r') ->
    yields Envelope Handler ResponseDone NextResponse h envs ->
    decode_to T zero Envelope ReUnmarshal envs vals ->
    forall fuel, List.length envs < fuel ->
      exists g st',
        helper fuel (Some rpc) command data opts st = (Returns g, st')
        /\ ops g = (map (fun d => ChSend (respValue T d)) vals ++ [ChClose])%list
        /\ returned g = true
        /\ chan_run make_chan (ops g)
           = Some {| received := map (respValue T) vals; closed := true |}
        /\ List.length (received_of (chan_run make_chan (ops g))) = List.length envs.
Proof.
  intros rpc command data opts st h r' envs vals Hsend Hy Hdec fuel Hlt.
  rewrite helper_some, Hsend. do 2 eexists. split; [reflexivity|].
  fold loop. rewrite (streamLoop_yields h envs vals Hy Hdec fuel Hlt).
  cbn [ops returned]. repeat split.
  - unfold make_chan. fold (responses T vals). rewrite chan_run_responses.
    reflexivity.
  - unfold make_chan. fold (responses T vals). rewrite chan_run_responses.
    cbn. rewrite length_map.
    symmetry. exact (Forall2_length Hdec).
Qed.

(** C5: every value the helper (or [rtnErr]) puts on the channel
    either carries a decoded response and a nil error, or a non-nil
    error and the zero response, and never both. *)
Theorem delivered_values_are_unions :
  (forall (err : error) (v : RespOrErrorUnion T),
      In (ChSend v) (ops (rtnErr T zero err)) ->
      carries_error T zero v
      /\ ~ carries_response T zero Envelope ReUnmarshal v)
  /\ (forall fuel w command data opts st g st' (v : RespOrErrorUnion T),
        helper fuel w command data opts st = (Returns g, st') ->
        In (ChSend v) (ops g) ->
        (carries_response T zero Envelope ReUnmarshal v \/ carries_error T zero v)
        /\ ~ (carries_response T zero Envelope ReUnmarshal v
              /\ carries_error T zero v)).
Proof.
  split.
  - intros err v [Hin | [Hin | []]]; [|discriminate].
    inversion Hin; subst. split.
    + split; [discriminate | reflexivity].
    + intros [Hnil _]. discriminate.
  - intros fuel w command data opts st g st' v Hrun Hin.
    split; [|intros [[Hnil _] [Herr _]]; contradiction].
    destruct (helper_trace fuel w command data opts st)
      as (g0 & st0 & vals & tl & Hrun0 & Hops & Htl & Hvals).
    rewrite Hrun in Hrun0. inversion Hrun0; subst g0 st0. rewrite Hops in Hin.
    destruct (trace_values T zero vals tl (returned g) v Htl Hin)
      as [[d [Hd ->]] | [e ->]].
    + left. split; [reflexivity|].
      rewrite Forall_forall in Hvals. exact (Hvals d Hd).
    + right. split; [discriminate | reflexivity].
Qed.

End StreamSpec.

(** *** The unary call helper *)
Section CallSpec.

Variable T : Type.
Variable zero : T.
Variable Data : Type.
Variable Envelope : Type.
Variable WshRpc : Type.
Variable R : Type.
Variable SendCommand :
  WshRpc -> string -> Data -> RpcOpts -> M R (option error).
Variable SendRpcRequest :
  WshRpc -> string -> Data -> RpcOpts -> M R (Envelope * option error).
Variable ReUnmarshal : T -> Envelope -> T * option error.

Let callHelper :=
  sendRpcRequestCallHelper T zero Data Envelope WshRpc R
    SendCommand SendRpcRequest ReUnmarshal.

(** C2: with [NoResponse] set and a transport at hand, the helper makes
    one call, [SendCommand], and neither [SendRpcRequest] nor the
    decoder; it returns the zero value with the error of the send, nil
    when the send went well. *)
Theorem NoResponse_fire_and_forget :
  forall (w : WshRpc) (command : string) (data : Data) (o : RpcOpts)
         (r : R) (log : list call),
    NoResponse o = true ->
    exists err r',
      SendCommand w command data o r = (err, r')
      /\ callHelper (Some w) command data (Some o) (r, log)
         = (Returns (zero, err), (r', (log ++ [CallSendCommand command])%list)).
Proof.
  intros w command data o r log Hno. subst callHelper.
  unfold sendRpcRequestCallHelper, bind, ret, logged. rewrite Hno. cbn [fst snd].
  destruct (SendCommand w command data o r) as [[e|] r'];
    do 2 eexists; split; reflexivity.
Qed.

(** C3: without a transport the helper returns the zero value and the
    nil-transport error, for any options, nil included; it does not
    panic and calls nothing. *)
Theorem nil_transport_is_an_error :
  forall (command : string) (data : Data) (opts : option RpcOpts)
         (st : R * list call),
    callHelper None command data opts st
      = (Returns (zero, Some nilRpcError), st).
Proof.
  intros command data opts st. subst callHelper.
  unfold sendRpcRequestCallHelper, ret. now destruct opts.
Qed.

End CallSpec.

(** A fire-and-forget call on a transport that accepts the send. *)
Lemma NoResponse_fire_and_forget_witness :
  sendRpcRequestCallHelper nat 0 unit (option nat) unit unit
    okCommand okRequest natUnmarshal
    (Some tt) "message" tt (Some {| Timeout := 0%Z; NoResponse := true |}) (tt, [])
  = (Returns (0, None), (tt, [CallSendCommand "message"])).
Proof.
  destruct (NoResponse_fire_and_forget nat 0 unit (option nat) unit unit
              okCommand okRequest natUnmarshal
              tt "message" tt {| Timeout := 0%Z; NoResponse := true |} tt []
              eq_refl) as (err & r' & Hsend & Hcall).
  inversion Hsend; subst. exact Hcall.
Defined.

(** A stream of three responses, then done. *)
Lemma stream_delivers_in_order_witness :
  exists g st',
    sendRpcRequestResponseStreamHelper nat 0 unit (option nat) unit unit
      (list (option nat)) (scriptRequest [Some 1; Some 2; Some 3])
      scriptDone scriptNext natUnmarshal
      4 (Some tt) "streamtest" tt None (tt, []) = (Returns g, st')
    /\ ops g = [ChSend (respValue nat 1); ChSend (respValue nat 2);
                ChSend (respValue nat 3); ChClose]
    /\ returned g = true
    /\ chan_run make_chan (ops g)
       = Some {| received := [respValue nat 1; respValue nat 2; respValue nat 3];
                 closed := true |}
    /\ List.length (received_of (chan_run make_chan (ops g))) = 3.
Proof.
  refine (stream_delivers_in_order nat 0 unit (option nat) unit unit
            (list (option nat)) (scriptRequest [Some 1; Some 2; Some 3])
            scriptDone scriptNext natUnmarshal
            tt "streamtest" tt None (tt, [])
            [Some 1; Some 2; Some 3] tt [Some 1; Some 2; Some 3] [1; 2; 3]
            eq_refl _ _ 4 _).
  - repeat (eapply yields_next; [reflexivity | reflexivity |]).
    eapply yields_done. reflexivity.
  - repeat constructor.
  - simpl. lia.
Defined.

(** A stream cut short by an envelope that does not decode: the
    exchange ends and the channel is closed once. *)
Lemma stream_channel_discipline_witness :
  exists n, forall fuel, n <= fuel ->
    exists g st',
      sendRpcRequestResponseStreamHelper nat 0 unit (option nat) unit unit
        (list (option nat)) (scriptRequest [Some 1; None; Some 3])
        scriptDone scriptNext natUnmarshal
        fuel (Some tt) "streamtest" tt None (tt, []) = (Returns g, st')
      /\ returned g = true
      /\ closed_once_at_end (ops g).
Proof.
  refine (proj1 (proj2 (stream_channel_discipline nat 0 unit (option nat) unit unit
                   (list (option nat)) (scriptRequest [Some 1; None; Some 3])
                   scriptDone scriptNext natUnmarshal
                   (Some tt) "streamtest" tt None (tt, [])))
                tt [Some 1; None; Some 3] tt eq_refl eq_refl _).
  eapply ends_later; [reflexivity | reflexivity | reflexivity |].
  eapply ends_decode_error; reflexivity.
Defined.

(** The first value of a stream carries a response and no error. *)
Lemma delivered_values_are_unions_witness :
  (carries_response nat 0 (option nat) natUnmarshal (respValue nat 1)
   \/ carries_error nat 0 (respValue nat 1))
  /\ ~ (carries_response nat 0 (option nat) natUnmarshal (respValue nat 1)
        /\ carries_error nat 0 (respValue nat 1)).
Proof.
  refine (proj2 (delivered_values_are_unions nat 0 unit (option nat) unit unit
                   (list (option nat)) (scriptRequest [Some 1; None; Some 3])
                   scriptDone scriptNext natUnmarshal)
                3 (Some tt) "streamtest" tt None (tt, []) _ _ (respValue nat 1)
                eq_refl _).
  simpl. left. reflexivity.
Defined.

Lemma endless_loop_open (fuel h : nat) :
  closes (ops (streamLoop nat 0 (option nat) nat endlessDone endlessNext
                 natUnmarshal fuel h)) = 0
  /\ returned (streamLoop nat 0 (option nat) nat endlessDone endlessNext
                 natUnmarshal fuel h) = false.
Proof.
  revert h. induction fuel as [|fuel IH]; intros h; [now split|].
  simpl. exact (IH (S h)).
Qed.

(** C1, as stated, fails on a transport whose exchange never ends: the
    handler is never done and every response arrives and decodes, so
    however long the goroutine runs the channel has not been closed. *)
Lemma endless_stream_never_closed :
  ~ exists fuel g st',
      sendRpcRequestResponseStreamHelper nat 0 unit (option nat) unit unit
        nat endlessRequest endlessDone endlessNext natUnmarshal
        fuel (Some tt) "streamtest" tt None (tt, []) = (Returns g, st')
      /\ closes (ops g) = 1.
Proof.
  intros (fuel & g & st' & Hrun & Hclosed).
  cbv [sendRpcRequestResponseStreamHelper bind ret logged endlessRequest fst snd]
    in Hrun.
  inversion Hrun; subst g.
  rewrite (proj1 (endless_loop_open fuel 0)) in Hclosed. discriminate.
Qed.

(** *** The helpers run on the sample transports *)

Example unary_call_decodes :
  sendRpcRequestCallHelper nat 0 unit (option nat) unit unit
    okCommand okRequest natUnmarshal (Some tt) "getvalue" tt None (tt, [])
  = (Returns (42, None), (tt, [CallSendRpcRequest "getvalue"; CallReUnmarshal])).
Proof. reflexivity. Qed.

Example refused_stream :
  sendRpcRequestResponseStreamHelper nat 0 unit (option nat) unit unit
    (list (option nat)) refuseRequest scriptDone scriptNext natUnmarshal
    5 (Some tt) "streamtest" tt None (tt, [])
  = (Returns {| ops := [ChSend {| Response := 0; Error := Some "rpc client closed" |};
                        ChClose];
                returned := true |},
     (tt, [CallSendComplexRequest "streamtest"])).
Proof. reflexivity. Qed.

Example endless_stream_prefix :
  ops (streamLoop nat 0 (option nat) nat endlessDone endlessNext natUnmarshal 3 0)
  = [ChSend (respValue nat 0); ChSend (respValue nat 1); ChSend (respValue nat 2)].
Proof. reflexivity. Qed.

End WshClientSpec.

(** ** Further properties of the probes *)
Module WslExtra.

Import Wsl Scenarios Samples.

(** *** Cutting at the separator *)

Lemma truncate_at_no_byte (sep : ascii) (s : string) :
  no_byte sep (truncate_at sep s) = true.
Proof.
  induction s as [|c r IH]; [reflexivity|]. simpl.
  destruct (Ascii.eqb c sep) eqn:E; [reflexivity|].
  unfold no_byte in *. simpl. now rewrite E, IH.
Qed.

(** *** The OS probe *)

(** The index into the result of [strings.Split] is always in range:
    [GetClientOs] never panics. It fails exactly when [uname -s] fails
    and each of the other two commands fails or prints its placeholder
    back; the string is then empty and the message lists the three
    errors as they are, nil ones included. *)
Theorem GetClientOs_failure :
  forall (TrimSpace ToLower : string -> string)
         (W : Type) (Output : string -> M W (string * option error)) (w : W),
    let r1 := Output "uname -s" w in
    let r2 := Output "echo %OS%" (snd r1) in
    let r3 := Output "echo $env:OS" (snd r2) in
    exists s err w',
      GetClientOs TrimSpace ToLower W Output w = (Some (s, err), w')
      /\ (err <> None <->
          failed (fst r1) /\ rejected TrimSpace "%OS%" (fst r2)
          /\ rejected TrimSpace "$env:OS" (fst r3))
      /\ (err <> None ->
          s = EmptyString
          /\ err = Some ("unable to determine os: {unix: " ++ fmt_s (snd (fst r1))
                         ++ ", cmd: " ++ fmt_s (snd (fst r2))
                         ++ ", powershell: " ++ fmt_s (snd (fst r3)) ++ "}")).
Proof.
  intros TrimSpace ToLower W Output w r1 r2 r3.
  rewrite WslSpec.GetClientOs_unfold. fold r1 r2 r3. cbv zeta.
  pose proof (WslSpec.rejected_dec TrimSpace "%OS%" (fst r2)) as H2.
  pose proof (WslSpec.rejected_dec TrimSpace "$env:OS" (fst r3)) as H3.
  unfold failed, osErrorf.
  destruct (snd (fst r1)) as [e1|]; cbn [is_nil].
  2:{ do 3 eexists. split; [reflexivity|]. intuition congruence. }
  destruct (is_nil (snd (fst r2)) && _).
  { do 3 eexists. split; [reflexivity|]. intuition congruence. }
  destruct (is_nil (snd (fst r3)) && _).
  { do 3 eexists. split; [reflexivity|]. intuition congruence. }
  do 3 eexists. split; [reflexivity|]. intuition congruence.
Qed.

(** When [uname -s] failed, a successful answer of [GetClientOs]
    contains no underscore: it is what stands before the first one in
    the lowercased and trimmed output. *)
Theorem GetClientOs_no_underscore :
  forall (TrimSpace ToLower : string -> string)
         (W : Type) (Output : string -> M W (string * option error)) (w : W)
         (s : string) (w' : W),
    GetClientOs TrimSpace ToLower W Output w = (Some (s, None), w') ->
    failed (fst (Output "uname -s" w)) ->
    no_byte "_" s = true.
Proof.
  intros TrimSpace ToLower W Output w s w'.
  rewrite WslSpec.GetClientOs_unfold. cbv zeta. unfold failed.
  destruct (snd (fst (Output "uname -s" w))) as [e1|]; cbn [is_nil];
    [|congruence].
  repeat match goal with |- context [if ?b then _ else _] => destruct b end;
    intros H _; inversion H; subst; apply truncate_at_no_byte.
Qed.

(** The OS of the [cmd.exe] machine: [Windows_NT] cut at its underscore. *)
Lemma GetClientOs_no_underscore_witness : no_byte "_" "windows" = true.
Proof.
  refine (GetClientOs_no_underscore asciiTrimSpace asciiToLower unit cmdDistro tt
            "windows" tt eq_refl _).
  discriminate.
Defined.

(** *** The architecture probe *)

(** [GetClientArch] fails exactly when [uname -m] fails and each of the
    other two commands fails or prints its placeholder back; the string
    is then empty, and the message is made of the three errors as they
    are: a command that printed its placeholder back has a nil error. *)
Theorem GetClientArch_failure :
  forall (TrimSpace ToLower : string -> string)
         (W : Type) (Output : string -> M W (string * option error)) (w : W),
    let r1 := Output "uname -m" w in
    let r2 := Output "echo %PROCESSOR_ARCHITECTURE%" (snd r1) in
    let r3 := Output "echo $env:PROCESSOR_ARCHITECTURE" (snd r2) in
    let res := fst (GetClientArch TrimSpace ToLower W Output w) in
    (snd res <> None <->
     failed (fst r1)
     /\ rejected TrimSpace "%PROCESSOR_ARCHITECTURE%" (fst r2)
     /\ rejected TrimSpace "$env:PROCESSOR_ARCHITECTURE" (fst r3))
    /\ (snd res <> None ->
        fst res = EmptyString
        /\ snd res
           = Some ("unable to determine architecture: {unix: "
                   ++ fmt_s (snd (fst r1))
                   ++ ", cmd: " ++ fmt_s (snd (fst r2))
                   ++ ", powershell: " ++ fmt_s (snd (fst r3)) ++ "}")).
Proof.
  intros TrimSpace ToLower W Output w r1 r2 r3 res. subst res.
  rewrite WslSpec.GetClientArch_unfold. fold r1 r2 r3. cbv zeta.
  pose proof (WslSpec.rejected_dec TrimSpace "%PROCESSOR_ARCHITECTURE%" (fst r2))
    as H2.
  pose proof (WslSpec.rejected_dec TrimSpace "$env:PROCESSOR_ARCHITECTURE" (fst r3))
    as H3.
  unfold failed, archErrorf.
  destruct (snd (fst r1)) as [e1|]; cbn [is_nil].
  2:{ cbn [fst snd]. intuition congruence. }
  destruct (is_nil (snd (fst r2)) && _); [cbn [fst snd]; intuition congruence|].
  destruct (is_nil (snd (fst r3)) && _); cbn [fst snd]; intuition congruence.
Qed.

Example GetClientArch_nil_in_message :
  GetClientArch asciiTrimSpace asciiToLower unit
    (tableOutput [("echo %PROCESSOR_ARCHITECTURE%", ("%PROCESSOR_ARCHITECTURE%", None))])
    tt
  = ((EmptyString,
      Some "unable to determine architecture: {unix: exit status 127, cmd: %!s(<nil>), powershell: exit status 127}"),
     tt).
Proof. reflexivity. Qed.

(** *** The order of the commands *)

Lemma recOutput_fst (W : Type) (Output : string -> M W (string * option error))
    (c : string) (st : W * list action) :
  fst (recOutput Output c st) = fst (Output c (fst st)).
Proof. unfold recOutput, recorded. now destruct (Output c (fst st)). Qed.

Lemma recOutput_snd (W : Type) (Output : string -> M W (string * option error))
    (c : string) (st : W * list action) :
  snd (recOutput Output c st)
  = (snd (Output c (fst st)), (snd st ++ [ActOutput c])%list).
Proof. unfold recOutput, recorded. now destruct (Output c (fst st)). Qed.

Ltac unrecord :=
  repeat (rewrite ?recOutput_fst, ?recOutput_snd; cbn [fst snd]).

(** [GetClientOs] asks for [uname -s], then [echo %OS%], then
    [echo $env:OS], in this order, stops at the first answer it accepts
    and asks for nothing else; keeping the record changes no answer. *)
Theorem GetClientOs_command_order :
  forall (TrimSpace ToLower : string -> string)
         (W : Type) (Output : string -> M W (string * option error))
         (w : W) (log : list action),
    let r1 := Output "uname -s" w in
    let r2 := Output "echo %OS%" (snd r1) in
    let run :=
      GetClientOs TrimSpace ToLower (W * list action) (recOutput Output) (w, log) in
    fst run = fst (GetClientOs TrimSpace ToLower W Output w)
    /\ fst (snd run) = snd (GetClientOs TrimSpace ToLower W Output w)
    /\ exists asked,
         snd (snd run) = (log ++ asked)%list
         /\ (snd (fst r1) = None -> asked = [ActOutput "uname -s"])
         /\ (failed (fst r1) -> ~ rejected TrimSpace "%OS%" (fst r2) ->
             asked = [ActOutput "uname -s"; ActOutput "echo %OS%"])
         /\ (failed (fst r1) -> rejected TrimSpace "%OS%" (fst r2) ->
             asked = [ActOutput "uname -s"; ActOutput "echo %OS%";
                      ActOutput "echo $env:OS"]).
Proof.
  intros TrimSpace ToLower W Output w log r1 r2 run. subst run.
  rewrite !WslSpec.GetClientOs_unfold. cbv zeta. unrecord. fold r1 r2.
  pose proof (WslSpec.rejected_dec TrimSpace "%OS%" (fst r2)) as H2. unfold failed.
  destruct (snd (fst r1)) as [e1|]; cbn [is_nil fst snd].
  2:{ repeat split. exists [ActOutput "uname -s"]. intuition congruence. }
  destruct (is_nil (snd (fst r2)) && _); cbn [fst snd].
  { repeat split. exists [ActOutput "uname -s"; ActOutput "echo %OS%"].
    rewrite <- app_assoc. intuition congruence. }
  destruct (is_nil _ && _); cbn [fst snd]; repeat split;
    exists [ActOutput "uname -s"; ActOutput "echo %OS%"; ActOutput "echo $env:OS"];
    rewrite <- !app_assoc; intuition congruence.
Qed.

(** With [uname] missing and [cmd] answering, two commands are run. *)
Lemma GetClientOs_command_order_witness :
  snd (snd (GetClientOs asciiTrimSpace asciiToLower (unit * list action)
              (recOutput cmdDistro) (tt, [])))
  = [ActOutput "uname -s"; ActOutput "echo %OS%"].
Proof.
  destruct (GetClientOs_command_order asciiTrimSpace asciiToLower
              unit cmdDistro tt [])
    as (_ & _ & asked & Hlog & _ & Hcmd & _).
  rewrite Hlog. simpl. apply Hcmd.
  - discriminate.
  - intros [He | Hl]; [now apply He | discriminate].
Defined.

(** [hasBashInstalled] with the record kept. *)
Lemma hasBashInstalled_recorded (W : Type)
    (Output : string -> M W (string * option error)) (w : W) (log : list action) :
  let r1 := Output "which bash" w in
  exists asked,
    hasBashInstalled (W * list action) (recOutput Output) (w, log)
    = (fst (hasBashInstalled W Output w),
       (snd (hasBashInstalled W Output w), (log ++ asked)%list))
    /\ (found (fst r1) -> asked = [ActOutput "which bash"])
    /\ (~ found (fst r1) ->
        asked = [ActOutput "which bash"; ActOutput "where.exe bash"]).
Proof.
  intros r1. rewrite !WslSpec.hasBashInstalled_unfold. cbv zeta. unrecord. fold r1.
  pose proof (WslSpec.found_dec (fst r1)) as H1.
  destruct (is_nil (snd (fst r1)) && _).
  - exists [ActOutput "which bash"]. split; [reflexivity|]. intuition congruence.
  - exists [ActOutput "which bash"; ActOutput "where.exe bash"].
    rewrite <- app_assoc.
    split; [now destruct (is_nil _ && _)|]. intuition congruence.
Qed.

(** [hasBashInstalled] asks for [which bash] and, only when that did
    not find bash, for [where.exe bash]; it never asks for anything
    else, so no PowerShell variant is tried. *)
Theorem hasBashInstalled_command_order :
  forall (W : Type) (Output : string -> M W (string * option error))
         (w : W) (log : list action),
    let r1 := Output "which bash" w in
    let run := hasBashInstalled (W * list action) (recOutput Output) (w, log) in
    fst run = fst (hasBashInstalled W Output w)
    /\ fst (snd run) = snd (hasBashInstalled W Output w)
    /\ (found (fst r1) ->
        snd (snd run) = (log ++ [ActOutput "which bash"])%list)
    /\ (~ found (fst r1) ->
        snd (snd run)
        = (log ++ [ActOutput "which bash"; ActOutput "where.exe bash"])%list).
Proof.
  intros W Output w log r1 run. subst run.
  destruct (hasBashInstalled_recorded W Output w log) as (asked & -> & Hf & Hn).
  cbn [fst snd]. repeat split.
  - intros H. now rewrite (Hf H).
  - intros H. now rewrite (Hn H).
Qed.

(** Bash found by [where.exe] after [which] printed nothing. *)
Lemma hasBashInstalled_command_order_witness :
  snd (snd (hasBashInstalled (unit * list action) (recOutput whereBashDistro) (tt, [])))
  = [ActOutput "which bash"; ActOutput "where.exe bash"].
Proof.
  refine (proj2 (proj2 (proj2
            (hasBashInstalled_command_order unit whereBashDistro tt []))) _).
  intros [_ Hne]. now apply Hne.
Defined.

(** *** The installer, step by step *)
Section InstallerSteps.

Variable W : Type.
Variable Output : string -> M W (string * option error).
Variable Dir ToSlash : string -> string.
Variable Execute : string -> list (string * string) -> string.
Variable StdinPipe Start : string -> M W (option error).
Variable CopyKillWait : string -> string -> M W after_copy.
Variable Open : string -> M W (option error).

(** What [CpHostToRemote] asks of the port and of the local file
    system, beyond the bash probe: the pipe and the start of one and the
    same command, the rendering of the bash template when bash was found
    and of the default template otherwise; then the local file; then the
    copy. It stops at the first of these that fails and returns its
    error: when the local file cannot be opened the remote process has
    been started and is neither fed, killed nor waited for. *)
Theorem CpHostToRemote_steps (sourcePath destPath : string) (w : W)
    (log : list action) :
  let w1 := snd (hasBashInstalled W Output w) in
  let installCmd :=
    Execute (if fst (fst (hasBashInstalled W Output w))
             then installTemplateRawBash else installTemplateRawDefault)
            [ ("installDir", ToSlash (Dir destPath));
              ("tempPath", destPath ++ ".temp");
              ("installPath", destPath) ] in
  let run :=
    CpHostToRemote_ret (W * list action) (recOutput Output) Dir ToSlash Execute
      (fun c => recorded (ActStdinPipe c) (StdinPipe c))
      (fun c => recorded (ActStart c) (Start c))
      (fun c p => recorded (ActCopyKillWait c p) (CopyKillWait c p))
      (fun p => recorded (ActOpen p) (Open p))
      sourcePath destPath (w, log) in
  exists probe,
    (found (fst (Output "which bash" w)) -> probe = [ActOutput "which bash"])
    /\ (~ found (fst (Output "which bash" w)) ->
        probe = [ActOutput "which bash"; ActOutput "where.exe bash"])
    /\ (forall e w2,
          StdinPipe installCmd w1 = (Some e, w2) ->
          run = (RetStdinPipeErr e,
                 (w2, (log ++ probe ++ [ActStdinPipe installCmd])%list)))
    /\ (forall w2 e w3,
          StdinPipe installCmd w1 = (None, w2) ->
          Start installCmd w2 = (Some e, w3) ->
          run = (RetStartErr e,
                 (w3, (log ++ probe
                       ++ [ActStdinPipe installCmd; ActStart installCmd])%list)))
    /\ (forall w2 w3 e w4,
          StdinPipe installCmd w1 = (None, w2) ->
          Start installCmd w2 = (None, w3) ->
          Open sourcePath w3 = (Some e, w4) ->
          run = (RetOpenErr sourcePath e,
                 (w4, (log ++ probe
                       ++ [ActStdinPipe installCmd; ActStart installCmd;
                           ActOpen sourcePath])%list)))
    /\ (forall w2 w3 w4,
          StdinPipe installCmd w1 = (None, w2) ->
          Start installCmd w2 = (None, w3) ->
          Open sourcePath w3 = (None, w4) ->
          run = (RetNil,
                 (snd (CopyKillWait installCmd sourcePath w4),
                  (log ++ probe
                   ++ [ActStdinPipe installCmd; ActStart installCmd;
                       ActOpen sourcePath;
                       ActCopyKillWait installCmd sourcePath])%list))).
Proof.
  intros w1 installCmd run. subst run.
  destruct (hasBashInstalled_recorded W Output w log) as (probe & Hprobe & Hf & Hn).
  exists probe. split; [exact Hf|]. split; [exact Hn|].
  unfold CpHostToRemote_ret, bind. rewrite Hprobe.
  pose proof (WslSpec.hasBashInstalled_nil_error W Output w) as Hnil.
  subst w1. subst installCmd.
  destruct (hasBashInstalled W Output w) as [[b err] w1].
  cbn [fst snd] in *. subst err. unfold recorded, ret, installWords.
  cbn [fst snd].
  set (installCmd := Execute _ _).
  split; [|split; [|split]].
  - intros e w2 H1. rewrite H1. cbn [fst snd]. now rewrite <- app_assoc.
  - intros w2 e w3 H1 H2. rewrite H1. cbn [fst snd]. rewrite H2. cbn [fst snd].
    now rewrite <- !app_assoc.
  - intros w2 w3 e w4 H1 H2 H3. rewrite H1. cbn [fst snd]. rewrite H2.
    cbn [fst snd]. rewrite H3. cbn [fst snd]. now rewrite <- !app_assoc.
  - intros w2 w3 w4 H1 H2 H3. rewrite H1. cbn [fst snd]. rewrite H2.
    cbn [fst snd]. rewrite H3. cbn [fst snd].
    destruct (CopyKillWait installCmd sourcePath w4) as [ac w5]. cbn [fst snd].
    now rewrite <- !app_assoc.
Qed.

End InstallerSteps.

(** A local file that cannot be opened, after the process was started. *)
Lemma CpHostToRemote_steps_witness :
  CpHostToRemote_ret (unit * list action) (recOutput cygwinDistro)
    (fun p => p) (fun p => p) plainExecute
    (fun c => recorded (ActStdinPipe c) (ret None))
    (fun c => recorded (ActStart c) (ret None))
    (fun c p => recorded (ActCopyKillWait c p) (ret brokenCopy))
    (fun p => recorded (ActOpen p) (ret (Some "no such file or directory")))
    "wsh" "d" (tt, [])
  = (RetOpenErr "wsh" "no such file or directory",
     (tt, [ActOutput "which bash";
           ActStdinPipe (plainExecute installTemplateRawBash
                           [("installDir", "d"); ("tempPath", "d.temp");
                            ("installPath", "d")]);
           ActStart (plainExecute installTemplateRawBash
                       [("installDir", "d"); ("tempPath", "d.temp");
                        ("installPath", "d")]);
           ActOpen "wsh"])).
Proof.
  destruct (CpHostToRemote_steps unit cygwinDistro (fun p => p) (fun p => p)
              plainExecute (fun _ => ret None) (fun _ => ret None)
              (fun _ _ => ret brokenCopy)
              (fun _ => ret (Some "no such file or directory"))
              "wsh" "d" tt [])
    as (probe & Hfound & _ & _ & _ & Hopen & _).
  refine (eq_trans
            (Hopen tt tt "no such file or directory" tt eq_refl eq_refl eq_refl) _).
  rewrite Hfound; [reflexivity|]. split; [reflexivity | discriminate].
Defined.

(** *** Probes through the helper binary *)

(** [DetectShell] never returns an error: it runs the [shell]
    subcommand of the helper at the path [GetWshPath] found, answers
    [/bin/bash] when that fails and the trimmed output otherwise. *)
Theorem DetectShell_never_errors :
  forall (TrimSpace : string -> string)
         (W : Type) (Output : string -> M W (string * option error)) (w : W),
    let g := GetWshPath TrimSpace W Output w in
    let r := Output (fst g ++ " shell") (snd g) in
    let res := DetectShell TrimSpace W Output w in
    snd (fst res) = None
    /\ snd res = snd r
    /\ (failed (fst r) -> fst (fst res) = "/bin/bash")
    /\ (snd (fst r) = None -> fst (fst res) = TrimSpace (fst (fst r))).
Proof.
  intros TrimSpace W Output w g r res. subst res r g.
  unfold DetectShell, bind, ret, failed.
  destruct (GetWshPath TrimSpace W Output w) as [path w1]. cbn [fst snd].
  destruct (Output (path ++ " shell") w1) as [[out [e|]] w2]; cbn [fst snd];
    repeat split; congruence.
Qed.

(** [GetWshVersion] and [InstallClientRcFiles] run a subcommand of the
    helper at the path [GetWshPath] found and hand the error of that
    command on as it is; the version is empty when the command failed
    and the trimmed output otherwise. *)
Theorem helper_errors_verbatim :
  forall (TrimSpace : string -> string)
         (W : Type) (Output : string -> M W (string * option error)) (w : W),
    let g := GetWshPath TrimSpace W Output w in
    let v := Output (fst g ++ " version") (snd g) in
    let rc := Output (fst g ++ " rcfiles") (snd g) in
    snd (fst (GetWshVersion TrimSpace W Output w)) = snd (fst v)
    /\ snd (GetWshVersion TrimSpace W Output w) = snd v
    /\ (failed (fst v) ->
        fst (fst (GetWshVersion TrimSpace W Output w)) = EmptyString)
    /\ (snd (fst v) = None ->
        fst (fst (GetWshVersion TrimSpace W Output w)) = TrimSpace (fst (fst v)))
    /\ InstallClientRcFiles TrimSpace W Output w = (snd (fst rc), snd rc).
Proof.
  intros TrimSpace W Output w g v rc. subst v rc g.
  unfold GetWshVersion, InstallClientRcFiles, bind, ret, failed.
  destruct (GetWshPath TrimSpace W Output w) as [path w1]. cbn [fst snd].
  split; [|split; [|split; [|split]]].
  1-4: destruct (Output (path ++ " version") w1) as [[out [e|]] w2];
       cbn [fst snd]; congruence.
  now destruct (Output (path ++ " rcfiles") w1) as [[out e] w2].
Qed.

Example helper_commands_on_a_bare_distro :
  snd (snd (GetWshVersion asciiTrimSpace (unit * list action)
              (recOutput deadDistro) (tt, [])))
  = [ActOutput "which wsh"; ActOutput "where.exe wsh"; ActOutput wshCmdProbe;
     ActOutput "~/.waveterm/bin/wsh version"]
  /\ DetectShell asciiTrimSpace unit deadDistro tt = (("/bin/bash", None), tt)
  /\ DetectShell asciiTrimSpace unit wshDistro tt = (("/usr/bin/zsh", None), tt)
  /\ GetWshVersion asciiTrimSpace unit wshDistro tt = (("wsh v0.8.0", None), tt)
  /\ InstallClientRcFiles asciiTrimSpace unit wshDistro tt
     = (Some "exit status 127", tt).
Proof. repeat split. Qed.

(** *** The home directory *)

(** [GetHomeDir] asks for [echo "$HOME"] and, only when that fails, for
    [echo %userprofile%]; it takes the first answer that comes without
    an error, whatever it says, and [~] when both fail. *)
Theorem GetHomeDir_fallback :
  forall (TrimSpace : string -> string)
         (W : Type) (Output : string -> M W (string * option error))
         (w : W) (log : list action),
    let r1 := Output echoHome w in
    let r2 := Output "echo %userprofile%" (snd r1) in
    let run := GetHomeDir TrimSpace (W * list action) (recOutput Output) (w, log) in
    fst run = fst (GetHomeDir TrimSpace W Output w)
    /\ (snd (fst r1) = None ->
        fst run = TrimSpace (fst (fst r1))
        /\ snd (snd run) = (log ++ [ActOutput echoHome])%list)
    /\ (failed (fst r1) ->
        snd (snd run)
        = (log ++ [ActOutput echoHome; ActOutput "echo %userprofile%"])%list
        /\ (snd (fst r2) = None -> fst run = TrimSpace (fst (fst r2)))
        /\ (failed (fst r2) -> fst run = "~")).
Proof.
  intros TrimSpace W Output w log r1 r2 run. subst run r2 r1.
  unfold GetHomeDir, bind, ret, failed, recOutput, recorded. cbn [fst snd].
  destruct (Output echoHome w) as [[o1 [e1|]] w1]; cbn [fst snd is_nil].
  - destruct (Output "echo %userprofile%" w1) as [[o2 [e2|]] w2];
      cbn [fst snd is_nil]; rewrite <- ?app_assoc;
      repeat split; try congruence; try discriminate.
  - repeat split; try congruence.
Qed.

(** On a [cmd.exe] machine that knows neither: the result is [~]. *)
Lemma GetHomeDir_fallback_witness :
  fst (GetHomeDir asciiTrimSpace (unit * list action) (recOutput deadDistro) (tt, []))
  = "~".
Proof.
  destruct (GetHomeDir_fallback asciiTrimSpace unit deadDistro tt [])
    as (_ & _ & H).
  assert (failed (fst (deadDistro echoHome tt))) as H1 by discriminate.
  destruct (H H1) as (_ & _ & H2). apply H2. discriminate.
Defined.

(** *** Telling PowerShell from its path *)

Lemma prefix_spec (p s : string) :
  String.prefix p s = true <-> exists post, s = p ++ post.
Proof.
  revert s. induction p as [|c p IH]; intros s.
  - split; [now exists s | now destruct s].
  - destruct s as [|c' s']; simpl.
    + split; [discriminate | intros [post H]; discriminate].
    + destruct (ascii_dec c c') as [<- | Hne].
      * rewrite IH. split; intros [post H]; exists post; congruence.
      * split; [discriminate | intros [post H]; congruence].
Qed.

Lemma Contains_spec (s sub : string) :
  Contains s sub = true <-> exists pre post, s = pre ++ sub ++ post.
Proof.
  induction s as [|c r IH].
  - change (Contains EmptyString sub) with (String.prefix sub EmptyString || false).
    rewrite orb_false_r, prefix_spec. split.
    + intros [post H]. now exists EmptyString, post.
    + intros [pre [post H]]. destruct pre; [now exists post | discriminate].
  - change (Contains (String c r) sub)
      with (String.prefix sub (String c r) || Contains r sub).
    rewrite orb_true_iff, prefix_spec, IH. split.
    + intros [[post H] | [pre [post H]]].
      * now exists EmptyString, post.
      * exists (String c pre), post. simpl. now rewrite H.
    + intros [pre [post H]]. destruct pre as [|c' pre].
      * left. now exists post.
      * right. exists pre, post. simpl in H. congruence.
Qed.

(** [IsPowershell] holds exactly when [powershell] or [pwsh] occurs,
    in these very letters, somewhere in the base name of the path; the
    directories of the path play no part beyond what [filepath.Base]
    makes of them. *)
Theorem IsPowershell_substring :
  forall (Base : string -> string) (shellPath : string),
    IsPowershell Base shellPath = true <->
    exists pre post,
      Base shellPath = pre ++ "powershell" ++ post
      \/ Base shellPath = pre ++ "pwsh" ++ post.
Proof.
  intros Base shellPath. unfold IsPowershell.
  rewrite orb_true_iff, !Contains_spec. split.
  - intros [[pre [post H]] | [pre [post H]]]; exists pre, post; auto.
  - intros [pre [post [H | H]]]; [left | right]; now exists pre, post.
Qed.

Example IsPowershell_case_matters :
  IsPowershell (fun p => p) "PowerShell.exe" = false
  /\ IsPowershell (fun p => p) "pwsh-preview" = true.
Proof. split; reflexivity. Qed.

(** *** An empty answer to [which wsh] *)

(** [GetWshPath] takes the answer of [which wsh] as it comes: when the
    command succeeds and prints nothing but white space the path is
    empty ([hasBashInstalled] asks for some output, [GetWshPath] does
    not), and [DetectShell] then runs the command made of a space and
    [shell]. *)
Theorem GetWshPath_accepts_empty :
  forall (TrimSpace : string -> string)
         (W : Type) (Output : string -> M W (string * option error))
         (w : W) (out : string) (w1 : W),
    Output "which wsh" w = ((out, None), w1) ->
    TrimSpace out = EmptyString ->
    GetWshPath TrimSpace W Output w = (EmptyString, w1)
    /\ snd (snd (DetectShell TrimSpace (W * list action) (recOutput Output) (w, [])))
       = [ActOutput "which wsh"; ActOutput " shell"].
Proof.
  intros TrimSpace W Output w out w1 Hwhich Hempty. split.
  - unfold GetWshPath, GetWshPath_src, bind, ret. rewrite Hwhich. cbn [is_nil].
    now rewrite Hempty.
  - unfold DetectShell, GetWshPath, GetWshPath_src, bind, ret, recOutput, recorded.
    cbn [fst snd]. rewrite Hwhich. cbn [is_nil fst snd]. rewrite Hempty.
    cbn [append].
    now destruct (Output " shell" w1) as [[o [e|]] w2].
Qed.

(** A distro whose [which] finds nothing and says so with exit code 0. *)
Lemma GetWshPath_accepts_empty_witness :
  GetWshPath asciiTrimSpace unit (tableOutput [("which wsh", (LF, None))]) tt
  = (EmptyString, tt)
  /\ snd (snd (DetectShell asciiTrimSpace (unit * list action)
                 (recOutput (tableOutput [("which wsh", (LF, None))])) (tt, [])))
     = [ActOutput "which wsh"; ActOutput " shell"].
Proof.
  exact (GetWshPath_accepts_empty asciiTrimSpace unit
           (tableOutput [("which wsh", (LF, None))])
           tt LF tt eq_refl eq_refl).
Defined.

End WslExtra.

(** ** Further properties of the call and stream helpers *)
Module WshClientExtra.

Import Wsl WshClient StreamProps StreamFailures Scenarios Samples.

Section CallExtra.

Variable T : Type.
Variable zero : T.
Variable Data : Type.
Variable Envelope : Type.
Variable WshRpc : Type.
Variable R : Type.
Variable Handler : Type.
Variable SendCommand :
  WshRpc -> string -> Data -> RpcOpts -> M R (option error).
Variable SendRpcRequest :
  WshRpc -> string -> Data -> RpcOpts -> M R (Envelope * option error).
Variable SendComplexRequest :
  WshRpc -> string -> Data -> RpcOpts -> M R (Handler * option error).
Variable ResponseDone : M Handler bool.
Variable NextResponse : M Handler (Envelope * option error).
Variable ReUnmarshal : T -> Envelope -> T * option error.

Let callHelper :=
  sendRpcRequestCallHelper T zero Data Envelope WshRpc R
    SendCommand SendRpcRequest ReUnmarshal.
Let streamHelper :=
  sendRpcRequestResponseStreamHelper T zero Data Envelope WshRpc R Handler
    SendComplexRequest ResponseDone NextResponse ReUnmarshal.
Let loop := streamLoop T zero Envelope Handler ResponseDone NextResponse ReUnmarshal.

(** A call that waits for its response ([NoResponse] unset, nil options
    included) makes one [SendRpcRequest] and never a [SendCommand]. When
    the request fails the decoder is not run and the zero value comes
    back with the error of the transport; otherwise the decoder is run
    once, on a zero value, and the helper returns what the decoder left
    in the value together with its error: after a failed decoding the
    value need not be the zero value. *)
Theorem unary_call_outcomes :
  forall (w : WshRpc) (command : string) (data : Data) (opts : option RpcOpts)
         (r : R) (log : list call),
    NoResponse (effective opts) = false ->
    let s := SendRpcRequest w command data (effective opts) r in
    (forall e,
        snd (fst s) = Some e ->
        callHelper (Some w) command data opts (r, log)
        = (Returns (zero, Some e),
           (snd s, (log ++ [CallSendRpcRequest command])%list)))
    /\ (snd (fst s) = None ->
        callHelper (Some w) command data opts (r, log)
        = (Returns (ReUnmarshal zero (fst (fst s))),
           (snd s, (log ++ [CallSendRpcRequest command; CallReUnmarshal])%list))).
Proof.
  intros w command data opts r log Hno s. subst s callHelper.
  unfold sendRpcRequestCallHelper, bind, ret, logged.
  assert (match opts with None => Some emptyOpts | Some _ => opts end
          = Some (effective opts)) as -> by now destruct opts.
  rewrite Hno. cbn [fst snd].
  destruct (SendRpcRequest w command data (effective opts) r) as [[resp err] r'].
  cbn [fst snd]. split.
  - now intros e ->.
  - intros ->. destruct (ReUnmarshal zero resp) as [d [e|]];
      cbn [fst snd]; now rewrite <- app_assoc.
Qed.

Lemma streamLoop_fails (h : Handler) (envs : list Envelope) (vals : list T)
    (e : error) :
  yields_then_fails T zero Envelope Handler ResponseDone NextResponse ReUnmarshal
    h envs e ->
  decode_to T zero Envelope ReUnmarshal envs vals ->
  forall fuel, List.length envs < fuel ->
    loop fuel h =
      {| ops := (responses T vals ++ [ChSend (errValue T zero e); ChClose])%list;
         returned := true |}.
Proof.
  intros Hy. revert vals.
  induction Hy as [h h1 resp e h2 Hd Hn | h h1 resp h2 d e Hd Hn Hu
                  | h h1 resp h2 rest e Hd Hn _ IH]; intros vals Hdec.
  - inversion Hdec; subst. intros [|fuel] Hlt; [lia|]. subst loop. simpl.
    now rewrite Hd, Hn.
  - inversion Hdec; subst. intros [|fuel] Hlt; [lia|]. subst loop. simpl.
    now rewrite Hd, Hn, Hu.
  - inversion Hdec as [|? d ? vals' Hu Hrest]; subst.
    intros [|fuel] Hlt; [simpl in Hlt; lia|]. subst loop. simpl.
    rewrite Hd, Hn, Hu. simpl in Hlt.
    rewrite (IH vals' Hrest fuel) by lia. reflexivity.
Qed.

(** A stream that breaks after [n] good responses: the consumer
    receives the [n] decoded responses in order, then one value
    carrying the error of the transport or of the decoder and the zero
    response, and then sees the channel closed. *)
Theorem stream_ends_on_error :
  forall (rpc : WshRpc) (command : string) (data : Data)
         (opts : option RpcOpts) (st : R * list call)
         (h : Handler) (r' : R) (envs : list Envelope) (vals : list T)
         (e : error),
    SendComplexRequest rpc command data (effective opts) (fst st)
      = ((h, None), r') ->
    yields_then_fails T zero Envelope Handler ResponseDone NextResponse
      ReUnmarshal h envs e ->
    decode_to T zero Envelope ReUnmarshal envs vals ->
    forall fuel, List.length envs < fuel ->
      exists g st',
        streamHelper fuel (Some rpc) command data opts st = (Returns g, st')
        /\ ops g = (map (fun d => ChSend (respValue T d)) vals
                    ++ [ChSend {| Response := zero; Error := Some e |}; ChClose])%list
        /\ returned g = true
        /\ chan_run make_chan (ops g)
           = Some {| received :=
                       (map (respValue T) vals
                        ++ [{| Response := zero; Error := Some e |}])%list;
                     closed := true |}.
Proof.
  intros rpc command data opts st h r' envs vals e Hsend Hy Hdec fuel Hlt.
  subst streamHelper. rewrite WshClientSpec.helper_some, Hsend.
  do 2 eexists. split; [reflexivity|]. fold loop.
  rewrite (streamLoop_fails h envs vals e Hy Hdec fuel Hlt).
  cbn [ops returned]. repeat split.
  unfold make_chan. fold (responses T vals).
  now rewrite WshClientSpec.chan_run_responses.
Qed.

End CallExtra.

(** A request that fails in the transport: no decoding, zero value. *)
Lemma unary_call_outcomes_witness :
  sendRpcRequestCallHelper nat 0 unit (option nat) unit unit
    okCommand failRequest partialUnmarshal (Some tt) "getvalue" tt None (tt, [])
  = (Returns (0, Some "timeout"), (tt, [CallSendRpcRequest "getvalue"])).
Proof.
  exact (proj1 (unary_call_outcomes nat 0 unit (option nat) unit unit
                  okCommand failRequest partialUnmarshal
                  tt "getvalue" tt None tt [] eq_refl)
               "timeout" eq_refl).
Defined.

Example unary_call_partial_value :
  sendRpcRequestCallHelper nat 0 unit (option nat) unit unit
    okCommand badRequest partialUnmarshal (Some tt) "getvalue" tt None (tt, [])
  = (Returns (7, Some "json: cannot unmarshal string into Go value of type int"),
     (tt, [CallSendRpcRequest "getvalue"; CallReUnmarshal])).
Proof. reflexivity. Qed.

(** Two responses, then the transport gives up. *)
Lemma stream_ends_on_error_witness :
  exists g st',
    sendRpcRequestResponseStreamHelper nat 0 unit (option nat) unit unit
      (list (option nat)) (scriptRequest [Some 1; Some 2])
      neverDone scriptNext natUnmarshal
      3 (Some tt) "streamtest" tt None (tt, []) = (Returns g, st')
    /\ ops g = [ChSend (respValue nat 1); ChSend (respValue nat 2);
                ChSend {| Response := 0; Error := Some "EOF" |}; ChClose]
    /\ returned g = true
    /\ chan_run make_chan (ops g)
       = Some {| received := [respValue nat 1; respValue nat 2;
                              {| Response := 0; Error := Some "EOF" |}];
                 closed := true |}.
Proof.
  refine (stream_ends_on_error nat 0 unit (option nat) unit unit
            (list (option nat)) (scriptRequest [Some 1; Some 2])
            neverDone scriptNext natUnmarshal
            tt "streamtest" tt None (tt, [])
            [Some 1; Some 2] tt [Some 1; Some 2] [1; 2] "EOF"
            eq_refl _ _ 3 _).
  - repeat (eapply fails_later; [reflexivity | reflexivity |]).
    eapply fails_in_transport; reflexivity.
  - repeat constructor.
  - simpl. lia.
Defined.

End WshClientExtra.
